(** * SmartGuard surveillance front end: store, gateway and stream session

    A shallow embedding of the state-synchronisation layer
    ([SurveillanceContext]: the reducer-style store, the mutation gateway
    and the health probe) and of the per-camera live-feed handler
    ([ViamVideoPlayer]), followed by the properties established for them. *)

From Stdlib Require Import ZArith QArith Lia.
From stdpp Require Import gmap strings list option pretty.

Open Scope Z_scope.
Open Scope string_scope.

(** ** JavaScript values *)

Module JS.

(** Object identities.  Every object literal, spread copy or parsed object
    gets an address of its own; [===] on objects compares addresses. *)
Definition loc := positive.

(** The values the store handles.  Numbers are the integer-valued ones
    (counts and numeric ids; a JS Number is exact on them below 2^53).
    A nested object or array is an opaque reference: the store never
    looks inside one. *)
Inductive value :=
| VUndefined
| VNull
| VBool (b : bool)
| VNum (n : Z)
| VStr (s : string)
| VRef (l : loc).

#[global] Instance value_eq_dec : EqDecision value.
Proof. solve_decision. Defined.

#[global] Instance value_inhabited : Inhabited value := populate VUndefined.

(** ToBoolean: what [if (v)], [v ? a : b] and [v || d] test. *)
Definition truthy (v : value) : bool :=
  match v with
  | VUndefined | VNull => false
  | VBool b => b
  | VNum n => negb (Z.eqb n 0)
  | VStr s => negb (String.eqb s "")
  | VRef _ => true
  end.

(** [a || b] *)
Definition or_else (a b : value) : value := if truthy a then a else b.

(** [a === b] *)
Definition strict_eq (a b : value) : bool :=
  match a, b with
  | VUndefined, VUndefined => true
  | VNull, VNull => true
  | VBool x, VBool y => bool_decide (x = y)
  | VNum x, VNum y => Z.eqb x y
  | VStr x, VStr y => String.eqb x y
  | VRef x, VRef y => Pos.eqb x y
  | _, _ => false
  end.

(** A plain object: its identity and its own properties. Objects are
    never mutated after construction in the code modelled here, so a
    reference is carried together with the properties it points to. *)
Record Obj := mkObj { addr : loc; props : gmap string value }.

(** [o.k]: an absent property reads as [undefined]. *)
Definition get (o : Obj) (k : string) : value := default VUndefined (props o !! k).

(** [{ ...a, ...b }] on property tables: [b]'s properties win. *)
Definition spread2 (a b : gmap string value) : gmap string value := b ∪ a.

(** An [Error] object, as thrown by [new Error(msg)], by [fetch] or by the
    runtime; only its [message] is read. *)
Record Error := mkError { message : string }.

End JS.

Export JS.

(** ** The allocation monad

    Computations that create objects thread the next free address.
    Addresses are tracked for the snapshots and for the entity objects in
    the collections, the references the store hands to its consumers; the
    [loading], [errors] and [overview] tables are held by value.  [None]
    marks an action whose payload does not have the shape its type tag
    calls for: such an action is outside the command language of the
    store and is given no meaning here. *)

Definition M (A : Type) : Type := loc -> option (A * loc).

#[global] Instance M_ret : MRet M := fun A (x : A) next => Some (x, next).

#[global] Instance M_bind : MBind M := fun A B (f : A -> M B) (m : M A) next =>
  match m next with
  | Some (x, next') => f x next'
  | None => None
  end.

Definition ill_typed {A} : M A := fun _ => None.

(** A fresh address. *)
Definition alloc : M loc := fun next => Some (next, Pos.succ next).

(** [{ ... }]: a new object with the given properties. *)
Definition new_object (p : gmap string value) : M Obj :=
  a ← alloc; mret (mkObj a p).

(** ** The store *)

Module Store.

Record Overview := mkOverview {
  towers_count : Z;
  cameras_count : Z;
  active_alarms_count : Z;
  system_status : string
}.

Record State := mkState {
  overview : Overview;
  towers : list Obj;
  cameras : list Obj;
  alarms : list Obj;
  loading : gmap string value;
  errors : gmap string value;
  lastUpdate : option string;
  connectionStatus : string
}.

(** A snapshot is a state object: an identity and the fields it holds. *)
Record Snapshot := mkSnapshot { saddr : loc; sval : State }.

Definition initialState : State := {|
  overview := {| towers_count := 0; cameras_count := 0;
                 active_alarms_count := 0; system_status := "loading" |};
  towers := [];
  cameras := [];
  alarms := [];
  loading := {[ "overview" := VBool false; "towers" := VBool false;
                "cameras" := VBool false; "alarms" := VBool false ]};
  errors := ∅;
  lastUpdate := None;
  connectionStatus := "disconnected"
|}.

(** [{ ...state, field: v }] for each field the reducer overrides. *)
Definition with_overview (o : Overview) (s : State) : State :=
  mkState o (towers s) (cameras s) (alarms s) (loading s) (errors s)
          (lastUpdate s) (connectionStatus s).
Definition with_towers (l : list Obj) (s : State) : State :=
  mkState (overview s) l (cameras s) (alarms s) (loading s) (errors s)
          (lastUpdate s) (connectionStatus s).
Definition with_cameras (l : list Obj) (s : State) : State :=
  mkState (overview s) (towers s) l (alarms s) (loading s) (errors s)
          (lastUpdate s) (connectionStatus s).
Definition with_alarms (l : list Obj) (s : State) : State :=
  mkState (overview s) (towers s) (cameras s) l (loading s) (errors s)
          (lastUpdate s) (connectionStatus s).
Definition with_loading (m : gmap string value) (s : State) : State :=
  mkState (overview s) (towers s) (cameras s) (alarms s) m (errors s)
          (lastUpdate s) (connectionStatus s).
Definition with_errors (m : gmap string value) (s : State) : State :=
  mkState (overview s) (towers s) (cameras s) (alarms s) (loading s) m
          (lastUpdate s) (connectionStatus s).
Definition with_lastUpdate (t : option string) (s : State) : State :=
  mkState (overview s) (towers s) (cameras s) (alarms s) (loading s)
          (errors s) t (connectionStatus s).
Definition with_connectionStatus (c : string) (s : State) : State :=
  mkState (overview s) (towers s) (cameras s) (alarms s) (loading s)
          (errors s) (lastUpdate s) c.

(** [{ ...overview, active_alarms_count: n }] *)
Definition with_active_alarms_count (n : Z) (o : Overview) : Overview :=
  mkOverview (towers_count o) (cameras_count o) n (system_status o).

Module actionTypes.
Definition SET_LOADING := "SET_LOADING".
Definition SET_ERROR := "SET_ERROR".
Definition SET_OVERVIEW := "SET_OVERVIEW".
Definition SET_TOWERS := "SET_TOWERS".
Definition SET_CAMERAS := "SET_CAMERAS".
Definition SET_ALARMS := "SET_ALARMS".
Definition ADD_ALARM := "ADD_ALARM".
Definition UPDATE_ALARM := "UPDATE_ALARM".
Definition UPDATE_TOWER := "UPDATE_TOWER".
Definition UPDATE_CAMERA := "UPDATE_CAMERA".
Definition SET_CONNECTION_STATUS := "SET_CONNECTION_STATUS".
Definition CLEAR_ERROR := "CLEAR_ERROR".

(** The values of the [actionTypes] table. *)
Definition all : list string :=
  [ SET_LOADING; SET_ERROR; SET_OVERVIEW; SET_TOWERS; SET_CAMERAS;
    SET_ALARMS; ADD_ALARM; UPDATE_ALARM; UPDATE_TOWER; UPDATE_CAMERA;
    SET_CONNECTION_STATUS; CLEAR_ERROR ].
End actionTypes.

(** The payload shapes the action creators build. *)
Inductive Payload :=
| PUndefined
| PKeyValue (key : string) (value : value)   (* { key, value } *)
| PKeyError (key : string) (error : value)   (* { key, error } *)
| PKey (key : string)                        (* { key } *)
| POverview (data : Overview)
| PList (data : list Obj)
| PObject (o : Obj)
| PStatus (status : string).

Record Action := mkAction { type : string; payload : Payload }.

(** [list.map(x => x.id === p.id ? { ...x, ...p } : x)] *)
Definition merge_by_id (p : Obj) (l : list Obj) : M (list Obj) :=
  mapM (fun x : Obj =>
          if strict_eq (get x "id") (get p "id")
          then new_object (spread2 (props x) (props p))
          else mret x) l.

(** The reducer.  [now] is what [new Date().toISOString()] returns at the
    time of the call.  The cases are tried in the order of the [switch]. *)
Definition surveillanceReducer (now : string) (state : Snapshot) (action : Action)
  : M Snapshot :=
  let s := sval state in
  if decide (type action = actionTypes.SET_LOADING) then
    match payload action with
    | PKeyValue key value =>
        a ← alloc;
        mret (mkSnapshot a (with_loading (<[key := value]> (loading s)) s))
    | _ => ill_typed
    end
  else if decide (type action = actionTypes.SET_ERROR) then
    match payload action with
    | PKeyError key error =>
        a ← alloc;
        mret (mkSnapshot a
                (with_loading (<[key := VBool false]> (loading s))
                   (with_errors (<[key := error]> (errors s)) s)))
    | _ => ill_typed
    end
  else if decide (type action = actionTypes.CLEAR_ERROR) then
    match payload action with
    | PKey key =>
        let newErrors := delete key (errors s) in
        a ← alloc;
        mret (mkSnapshot a (with_errors newErrors s))
    | _ => ill_typed
    end
  else if decide (type action = actionTypes.SET_OVERVIEW) then
    match payload action with
    | POverview data =>
        a ← alloc;
        mret (mkSnapshot a
                (with_lastUpdate (Some now)
                   (with_loading (<["overview" := VBool false]> (loading s))
                      (with_overview data s))))
    | _ => ill_typed
    end
  else if decide (type action = actionTypes.SET_TOWERS) then
    match payload action with
    | PList data =>
        a ← alloc;
        mret (mkSnapshot a
                (with_loading (<["towers" := VBool false]> (loading s))
                   (with_towers data s)))
    | _ => ill_typed
    end
  else if decide (type action = actionTypes.SET_CAMERAS) then
    match payload action with
    | PList data =>
        a ← alloc;
        mret (mkSnapshot a
                (with_loading (<["cameras" := VBool false]> (loading s))
                   (with_cameras data s)))
    | _ => ill_typed
    end
  else if decide (type action = actionTypes.SET_ALARMS) then
    match payload action with
    | PList data =>
        a ← alloc;
        mret (mkSnapshot a
                (with_loading (<["alarms" := VBool false]> (loading s))
                   (with_alarms data s)))
    | _ => ill_typed
    end
  else if decide (type action = actionTypes.ADD_ALARM) then
    match payload action with
    | PObject alarm =>
        a ← alloc;
        mret (mkSnapshot a
                (with_overview
                   (with_active_alarms_count
                      (active_alarms_count (overview s) + 1) (overview s))
                   (with_alarms (alarm :: alarms s) s)))
    | _ => ill_typed
    end
  else if decide (type action = actionTypes.UPDATE_ALARM) then
    match payload action with
    | PObject p =>
        a ← alloc;
        l ← merge_by_id p (alarms s);
        mret (mkSnapshot a (with_alarms l s))
    | _ => ill_typed
    end
  else if decide (type action = actionTypes.UPDATE_TOWER) then
    match payload action with
    | PObject p =>
        a ← alloc;
        l ← merge_by_id p (towers s);
        mret (mkSnapshot a (with_towers l s))
    | _ => ill_typed
    end
  else if decide (type action = actionTypes.UPDATE_CAMERA) then
    match payload action with
    | PObject p =>
        a ← alloc;
        l ← merge_by_id p (cameras s);
        mret (mkSnapshot a (with_cameras l s))
    | _ => ill_typed
    end
  else if decide (type action = actionTypes.SET_CONNECTION_STATUS) then
    match payload action with
    | PStatus status =>
        a ← alloc;
        mret (mkSnapshot a (with_connectionStatus status s))
    | _ => ill_typed
    end
  else mret state.

End Store.

(** ** The backend client

    [surveillanceAPI]: each method is an HTTP round trip.  What the awaited
    call settles to is supplied by the environment. *)

Module surveillanceAPI.

(** The JSON envelope [{ success, data | error }].  A body that is a
    number, a string, a boolean or an array reads as an envelope whose
    fields are all [undefined]. *)
Record Response (D : Type) := mkResponse {
  success : value;
  error : value;
  data : D
}.
Arguments mkResponse {D} _ _ _.
Arguments success {D} _.
Arguments error {D} _.
Arguments data {D} _.

(** What [request] returns: the parsed body, which may also be [null]. *)
Inductive Body (D : Type) :=
| BodyNull
| BodyEnvelope (r : Response D).
Arguments BodyNull {D}.
Arguments BodyEnvelope {D} _.

(** A settled promise: [request] rethrows network failures, unparsable
    bodies and non-2xx statuses as [Error]s. *)
Inductive Outcome (D : Type) :=
| Rejected (e : Error)
| Fulfilled (body : Body D).
Arguments Rejected {D} _.
Arguments Fulfilled {D} _.

Record Client := mkClient {
  healthCheck : Outcome value;
  getTowers : Outcome (list Obj);
  getCameras : value -> Outcome (list Obj);
  createTower : Obj -> Outcome value;
  updateTower : value -> Obj -> Outcome Obj;
  createCamera : Obj -> Outcome value;
  acknowledgeAlarm : value -> Outcome value;
  resolveAlarm : value -> Outcome value
}.

End surveillanceAPI.

(** ** The provider: dispatching, the mutation gateway, the health probe *)

Module SurveillanceProvider.
Import Store.
Import surveillanceAPI.

(** The provider's mutable world: the snapshot [useReducer] currently
    holds, and the next free address. *)
Record World := mkWorld { store : Snapshot; heap_next : loc }.

(** How a block of code ends: normally, or by a [throw]. *)
Inductive Completion (A : Type) :=
| Normal (a : A)
| Throw (e : Error).
Arguments Normal {A} _.
Arguments Throw {A} _.

(** Provider code: it transforms the world and completes; [None] only when
    it dispatches an ill-typed action. *)
Definition G (A : Type) : Type := World -> option (Completion A * World).

#[global] Instance G_ret : MRet G := fun A (x : A) w => Some (Normal x, w).

#[global] Instance G_bind : MBind G := fun A B (f : A -> G B) (m : G A) w =>
  match m w with
  | Some (Normal x, w') => f x w'
  | Some (Throw e, w') => Some (Throw e, w')
  | None => None
  end.

Definition throw {A} (e : Error) : G A := fun w => Some (Throw e, w).

(** [try { body } catch (error) { handler }] *)
Definition try_catch {A} (body : G A) (handler : Error -> G A) : G A := fun w =>
  match body w with
  | Some (Throw e, w') => handler e w'
  | r => r
  end.

(** [await p] *)
Definition await {D} (p : Outcome D) : G (Body D) :=
  match p with
  | Rejected e => throw e
  | Fulfilled body => mret body
  end.

(** The first property read on a response: a [TypeError] on [null]
    (the message is the engine's; V8's wording is used). *)
Definition null_read_error (name : string) : Error :=
  mkError ("Cannot read properties of null (reading '" +:+ name +:+ "')").

Definition fields_of {D} (name : string) (body : Body D) : G (Response D) :=
  match body with
  | BodyNull => throw (null_read_error name)
  | BodyEnvelope r => mret r
  end.

(** Object creation inside provider code. *)
Definition lift {A} (m : M A) : G A := fun w =>
  match m (heap_next w) with
  | Some (x, next') => Some (Normal x, mkWorld (store w) next')
  | None => None
  end.

Section WithEnvironment.

(** The clock reading, the backend, and the string an object or array
    reference converts to. *)
Variable now : string.
Variable api : Client.
Variable object_to_string : loc -> string.

(** ToString, as [new Error(v)] applies it to its argument. *)
Definition ToString (v : value) : string :=
  match v with
  | VUndefined => "undefined"
  | VNull => "null"
  | VBool true => "true"
  | VBool false => "false"
  | VNum n => pretty n
  | VStr s => s
  | VRef l => object_to_string l
  end.

(** [new Error(v)] *)
Definition new_Error (v : value) : Error := mkError (ToString v).

(** [dispatch(action)]: the store moves to [surveillanceReducer(state, action)]. *)
Definition dispatch (action : Action) : G unit := fun w =>
  match surveillanceReducer now (store w) action (heap_next w) with
  | Some (s', next') => Some (Normal tt, mkWorld s' next')
  | None => None
  end.

Definition setLoading (key : string) (v : value) : G unit :=
  dispatch (mkAction actionTypes.SET_LOADING (PKeyValue key v)).

Definition setError (key : string) (err : value) : G unit :=
  dispatch (mkAction actionTypes.SET_ERROR (PKeyError key err)).

Definition clearError (key : string) : G unit :=
  dispatch (mkAction actionTypes.CLEAR_ERROR (PKey key)).

Definition fetchTowers : G unit :=
  setLoading "towers" (VBool true);;
  try_catch
    (response ← await (getTowers api);
     r ← fields_of "success" response;
     if truthy (success r)
     then dispatch (mkAction actionTypes.SET_TOWERS (PList (data r)))
     else setError "towers" (or_else (error r) (VStr "Failed to fetch towers")))
    (fun err => setError "towers" (VStr (message err))).

Definition fetchCameras (towerId : value) : G unit :=
  setLoading "cameras" (VBool true);;
  try_catch
    (response ← await (getCameras api towerId);
     r ← fields_of "success" response;
     if truthy (success r)
     then dispatch (mkAction actionTypes.SET_CAMERAS (PList (data r)))
     else setError "cameras" (or_else (error r) (VStr "Failed to fetch cameras")))
    (fun err => setError "cameras" (VStr (message err))).

Definition createTower (towerData : Obj) : G (Body value) :=
  try_catch
    (response ← await (surveillanceAPI.createTower api towerData);
     r ← fields_of "success" response;
     if truthy (success r)
     then fetchTowers;; mret response
     else throw (new_Error (or_else (error r) (VStr "Failed to create tower"))))
    (fun err => setError "towers" (VStr (message err));; throw err).

Definition updateTower (towerId : value) (towerData : Obj) : G (Body Obj) :=
  try_catch
    (response ← await (surveillanceAPI.updateTower api towerId towerData);
     r ← fields_of "success" response;
     if truthy (success r)
     then dispatch (mkAction actionTypes.UPDATE_TOWER (PObject (data r)));;
          mret response
     else throw (new_Error (or_else (error r) (VStr "Failed to update tower"))))
    (fun err => setError "towers" (VStr (message err));; throw err).

Definition createCamera (cameraData : Obj) : G (Body value) :=
  try_catch
    (response ← await (surveillanceAPI.createCamera api cameraData);
     r ← fields_of "success" response;
     if truthy (success r)
     then fetchCameras VNull;; mret response
     else throw (new_Error (or_else (error r) (VStr "Failed to create camera"))))
    (fun err => setError "cameras" (VStr (message err));; throw err).

Definition acknowledgeAlarm (alarmId : value) : G (Body value) :=
  try_catch
    (response ← await (surveillanceAPI.acknowledgeAlarm api alarmId);
     r ← fields_of "success" response;
     if truthy (success r)
     then p ← lift (new_object {[ "id" := alarmId; "status" := VStr "acknowledged" ]});
          dispatch (mkAction actionTypes.UPDATE_ALARM (PObject p));;
          mret response
     else throw (new_Error (or_else (error r) (VStr "Failed to acknowledge alarm"))))
    (fun err => setError "alarms" (VStr (message err));; throw err).

Definition resolveAlarm (alarmId : value) : G (Body value) :=
  try_catch
    (response ← await (surveillanceAPI.resolveAlarm api alarmId);
     r ← fields_of "success" response;
     if truthy (success r)
     then p ← lift (new_object {[ "id" := alarmId; "status" := VStr "resolved" ]});
          dispatch (mkAction actionTypes.UPDATE_ALARM (PObject p));;
          mret response
     else throw (new_Error (or_else (error r) (VStr "Failed to resolve alarm"))))
    (fun err => setError "alarms" (VStr (message err));; throw err).

Definition addAlarm (alarm : Obj) : G unit :=
  dispatch (mkAction actionTypes.ADD_ALARM (PObject alarm)).

Definition setConnectionStatus (status : string) : G unit :=
  dispatch (mkAction actionTypes.SET_CONNECTION_STATUS (PStatus status)).

(** One run of the health probe. *)
Definition checkConnection : G unit :=
  try_catch
    (response ← await (healthCheck api);
     r ← fields_of "success" response;
     setConnectionStatus (if truthy (success r) then "connected" else "disconnected"))
    (fun _ => setConnectionStatus "disconnected").

End WithEnvironment.

End SurveillanceProvider.

(** ** The per-camera live-feed session *)

Module ViamVideoPlayer.

#[local] Unset Elimination Schemes.

(** Parsed JSON, and [undefined] for what a property read may give.
    A number is the rational value of the parsed double. *)
Inductive jvalue :=
| JUndefined
| JNull
| JBool (b : bool)
| JNum (q : Q)
| JStr (s : string)
| JArr (elems : list jvalue)
| JObj (fields : list (string * jvalue)).

#[local] Set Elimination Schemes.

(** ToBoolean *)
Definition truthy (v : jvalue) : bool :=
  match v with
  | JUndefined | JNull => false
  | JBool b => b
  | JNum q => negb (Qeq_bool q 0)
  | JStr s => negb (String.eqb s "")
  | JArr _ | JObj _ => true
  end.

(** [a || b] *)
Definition or_else (a b : jvalue) : jvalue := if truthy a then a else b.

(** The own property [k] of a parsed object. *)
Fixpoint own_property (fields : list (string * jvalue)) (k : string) : jvalue :=
  match fields with
  | [] => JUndefined
  | (k', v) :: rest => if String.eqb k' k then v else own_property rest k
  end.

(** [v.k] for a property name [k] other than [length] and the indices
    (the handler reads [error], [image] and [detections]): a [TypeError]
    ([None]) on [null] and [undefined]; [undefined] on numbers, strings,
    booleans and arrays. *)
Definition get_prop (v : jvalue) (k : string) : option jvalue :=
  match v with
  | JUndefined | JNull => None
  | JObj fields => Some (own_property fields k)
  | _ => Some JUndefined
  end.

(** The component's [useState] cells. *)
Record Session := mkSession {
  isConnected : bool;
  isLoading : bool;
  error : jvalue;
  currentImage : jvalue;
  detections : jvalue;
  streamUrl : jvalue;
  cameraInfo : jvalue
}.

Definition initialSession : Session :=
  mkSession false false JNull JNull (JArr []) JNull JNull.

(** Handler code: it calls state setters and may throw; a setter call made
    before a throw stays made. *)
Definition Handler (A : Type) : Type := Session -> option A * Session.

#[global] Instance Handler_ret : MRet Handler := fun A (x : A) st => (Some x, st).

#[global] Instance Handler_bind : MBind Handler :=
  fun A B (f : A -> Handler B) (m : Handler A) st =>
  match m st with
  | (Some x, st') => f x st'
  | (None, st') => (None, st')
  end.

(** A step that may throw. *)
Definition try_eval {A} (r : option A) : Handler A := fun st => (r, st).

(** [try { body } catch (err) { console.error(...) }] *)
Definition try_log (body : Handler unit) : Session -> Session := fun st => snd (body st).

Definition setIsConnected (b : bool) : Handler unit := fun st =>
  (Some tt, mkSession b (isLoading st) (error st) (currentImage st)
                      (detections st) (streamUrl st) (cameraInfo st)).

Definition setError (v : jvalue) : Handler unit := fun st =>
  (Some tt, mkSession (isConnected st) (isLoading st) v (currentImage st)
                      (detections st) (streamUrl st) (cameraInfo st)).

Definition setCurrentImage (v : jvalue) : Handler unit := fun st =>
  (Some tt, mkSession (isConnected st) (isLoading st) (error st) v
                      (detections st) (streamUrl st) (cameraInfo st)).

Definition setDetections (v : jvalue) : Handler unit := fun st =>
  (Some tt, mkSession (isConnected st) (isLoading st) (error st)
                      (currentImage st) v (streamUrl st) (cameraInfo st)).

Section LiveFeed.

(** [JSON.parse]: [None] when it throws a [SyntaxError]. *)
Variable JSON_parse : string -> option jvalue.

(** [eventSource.onmessage], on an event whose [data] is [event_data]. *)
Definition onmessage (event_data : string) : Session -> Session :=
  try_log
    (data ← try_eval (JSON_parse event_data);
     err ← try_eval (get_prop data "error");
     if truthy err
     then setError err
     else
       image ← try_eval (get_prop data "image");
       setCurrentImage image;;
       dets ← try_eval (get_prop data "detections");
       setDetections (or_else dets (JArr []));;
       setError JNull).

(** [eventSource.onerror] *)
Definition onerror : Session -> Session :=
  fun st => snd ((setError (JStr "Live feed connection lost");;
                  setIsConnected false) st).

End LiveFeed.

End ViamVideoPlayer.

(** ** Vocabulary of the properties *)

Module StoreSpec.
Import Store.

(** The command language of the store: a known type tag with the payload
    its case reads, or any other tag with any payload. *)
Inductive well_typed : Action -> Prop :=
| wt_SetLoading key v :
    well_typed (mkAction actionTypes.SET_LOADING (PKeyValue key v))
| wt_SetError key err :
    well_typed (mkAction actionTypes.SET_ERROR (PKeyError key err))
| wt_ClearError key :
    well_typed (mkAction actionTypes.CLEAR_ERROR (PKey key))
| wt_SetOverview data :
    well_typed (mkAction actionTypes.SET_OVERVIEW (POverview data))
| wt_SetTowers l :
    well_typed (mkAction actionTypes.SET_TOWERS (PList l))
| wt_SetCameras l :
    well_typed (mkAction actionTypes.SET_CAMERAS (PList l))
| wt_SetAlarms l :
    well_typed (mkAction actionTypes.SET_ALARMS (PList l))
| wt_AddAlarm alarm :
    well_typed (mkAction actionTypes.ADD_ALARM (PObject alarm))
| wt_UpdateAlarm p :
    well_typed (mkAction actionTypes.UPDATE_ALARM (PObject p))
| wt_UpdateTower p :
    well_typed (mkAction actionTypes.UPDATE_TOWER (PObject p))
| wt_UpdateCamera p :
    well_typed (mkAction actionTypes.UPDATE_CAMERA (PObject p))
| wt_SetConnectionStatus status :
    well_typed (mkAction actionTypes.SET_CONNECTION_STATUS (PStatus status))
| wt_unknown t p :
    t ∉ actionTypes.all -> well_typed (mkAction t p).

(** Every key with an error entry has its loading flag equal to [false]. *)
Definition error_implies_idle (s : State) : Prop :=
  forall k, is_Some (errors s !! k) -> loading s !! k = Some (VBool false).

(** [SET_LOADING] with a value other than [false], for a key that has an
    error entry. *)
Definition raises_flag_over_error (s : State) (a : Action) : Prop :=
  exists k v, type a = actionTypes.SET_LOADING /\ payload a = PKeyValue k v /\
              v <> VBool false /\ is_Some (errors s !! k).

(** The worlds the store gets to from its initial state when every
    dispatched action satisfies [allowed] in the state it is applied to. *)
Inductive reachable_by (allowed : State -> Action -> Prop) : Snapshot -> loc -> Prop :=
| reachable_init a n :
    reachable_by allowed (mkSnapshot a initialState) n
| reachable_step now snap n action snap' n' :
    reachable_by allowed snap n ->
    allowed (sval snap) action ->
    surveillanceReducer now snap action n = Some (snap', n') ->
    reachable_by allowed snap' n'.

Definition reachable : Snapshot -> loc -> Prop :=
  reachable_by (fun _ _ => True).

(** Dispatching a list of actions in order, all at clock reading [now]. *)
Fixpoint dispatch_all (now : string) (actions : list Action) (snap : Snapshot)
  : M Snapshot :=
  match actions with
  | [] => mret snap
  | a :: rest => snap' ← surveillanceReducer now snap a; dispatch_all now rest snap'
  end.

End StoreSpec.

Module ProviderSpec.
Import surveillanceAPI SurveillanceProvider.

(** The call came back with an envelope whose [success] field holds. *)
Definition responded_ok {D} (o : Outcome D) : bool :=
  match o with
  | Fulfilled (BodyEnvelope r) => truthy (success r)
  | _ => false
  end.

(** The error a failed call stands for: the transport error itself, the
    runtime's error on a [null] body, or an [Error] built from the
    envelope's [error] field, [fallback] when that field is falsy. *)
Definition failure_error {D} (object_to_string : loc -> string)
    (fallback : string) (o : Outcome D) : Error :=
  match o with
  | Rejected e => e
  | Fulfilled BodyNull => null_read_error "success"
  | Fulfilled (BodyEnvelope r) =>
      new_Error object_to_string (or_else (error r) (VStr fallback))
  end.

(** The world after the handler has recorded [err] under [key] and
    rethrown: [errors[key]] is the message. *)
Definition recorded (key : string) (err : Error) (w' : World) : Prop :=
  Store.errors (Store.sval (store w')) !! key = Some (VStr (message err))
  /\ Store.loading (Store.sval (store w')) !! key = Some (VBool false).

(** A backend that is unreachable: every call is rejected by [fetch]. *)
Definition offline_client : Client :=
  let down {D} : Outcome D := Rejected (mkError "Failed to fetch") in
  mkClient down down (fun _ => down) (fun _ => down) (fun _ _ => down)
           (fun _ => down) (fun _ => down) (fun _ => down).

(** A backend that answers every call with [{ success: false, error }]. *)
Definition refusing_client (reason : string) : Client :=
  let no {D} (d : D) : Outcome D :=
    Fulfilled (BodyEnvelope (mkResponse (VBool false) (VStr reason) d)) in
  mkClient (no VUndefined) (no []) (fun _ => no []) (fun _ => no VUndefined)
           (fun _ d => no d) (fun _ => no VUndefined) (fun _ => no VUndefined)
           (fun _ => no VUndefined).

(** A backend whose health endpoint answers [{ success: true }]. *)
Definition healthy_client : Client :=
  let down {D} : Outcome D := Rejected (mkError "Failed to fetch") in
  mkClient (Fulfilled (BodyEnvelope (mkResponse (VBool true) VUndefined VUndefined)))
           down (fun _ => down) (fun _ => down) (fun _ _ => down)
           (fun _ => down) (fun _ => down) (fun _ => down).

(** The provider's world right after mounting. *)
Definition initialWorld : World :=
  mkWorld (Store.mkSnapshot 1%positive Store.initialState) 2%positive.

End ProviderSpec.

Module StreamSpec.
Import ViamVideoPlayer.

(** The parsed object has an own property named [k]. *)
Fixpoint has_own (fields : list (string * jvalue)) (k : string) : bool :=
  match fields with
  | [] => false
  | (k', _) :: rest => String.eqb k' k || has_own rest k
  end.

(** A session that is live and showing a frame with one detection. *)
Definition live_session : Session :=
  mkSession true false JNull (JStr "data:image/jpeg;base64,AAAA")
    (JArr [JObj [("class_name", JStr "person"); ("confidence", JNum (87 # 100));
                 ("x_min", JNum (1 # 10)); ("y_min", JNum (2 # 10));
                 ("x_max", JNum (4 # 10)); ("y_max", JNum (9 # 10))]])
    JNull JNull.

(** [JSON.parse] restricted to one event text, whose parse is given. *)
Definition parses_to (text : string) (v : jvalue) : string -> option jvalue :=
  fun s => if String.eqb s text then Some v else None.

End StreamSpec.

(** ** The backend client: [request] and [formatError] *)

Module SurveillanceAPI.
Import surveillanceAPI SurveillanceProvider.

(** What [fetch(url, config)] settles to, together with what
    [response.json()] settles to on the response it gives: [inl e] when
    the body is not JSON and [json()] rejects with [e]. *)
Inductive FetchResult (D : Type) :=
| NetworkError (e : Error)
| Responded (ok : bool) (status : Z) (json : Error + Body D).
Arguments NetworkError {D} _.
Arguments Responded {D} _ _ _.

(** [request(endpoint, options)], given what its [fetch] settles to.  The
    body is parsed before [response.ok] is looked at; the [catch] logs
    and rethrows. *)
Definition request {D} (object_to_string : loc -> string) (f : FetchResult D)
  : Outcome D :=
  match f with
  | NetworkError e => Rejected e
  | Responded ok status (inl e) => Rejected e
  | Responded ok status (inr data) =>
      if negb ok
      then match data with
           | BodyNull => Rejected (null_read_error "error")
           | BodyEnvelope r =>
               Rejected (new_Error object_to_string
                           (or_else (error r)
                              (VStr ("HTTP error! status: " +:+ pretty status))))
           end
      else Fulfilled data
  end.

(** [formatError(error)] on an error object given as a property tree;
    [None] is the [TypeError] of reading a property of [null] or
    [undefined]. *)
Definition formatError (error : ViamVideoPlayer.jvalue)
  : option ViamVideoPlayer.jvalue :=
  let get := ViamVideoPlayer.get_prop in
  let truthy := ViamVideoPlayer.truthy in
  let or_else := ViamVideoPlayer.or_else in
  response ← get error "response";
  guard_data ← (if truthy response then get response "data" else Some response);
  if truthy guard_data
  then data ← get response "data";
       e ← get data "error";
       Some (or_else e (ViamVideoPlayer.JStr "An error occurred"))
  else msg ← get error "message";
       Some (or_else msg (ViamVideoPlayer.JStr "An unknown error occurred")).

End SurveillanceAPI.

(** ** The provider's other fetches *)

Module ProviderReads.
Import Store surveillanceAPI SurveillanceProvider.

(** The two read endpoints the provider polls besides towers and cameras. *)
Record Reads := mkReads {
  getDashboardOverview : Outcome Overview;
  getAlarms : Obj -> Outcome (list Obj)
}.

Section WithEnvironment.

Variable now : string.
Variable reads : Reads.

Definition fetchOverview : G unit :=
  setLoading now "overview" (VBool true);;
  try_catch
    (response ← await (getDashboardOverview reads);
     r ← fields_of "success" response;
     if truthy (success r)
     then dispatch now (mkAction actionTypes.SET_OVERVIEW (POverview (data r)))
     else setError now "overview" (or_else (error r) (VStr "Failed to fetch overview")))
    (fun err => setError now "overview" (VStr (message err))).

Definition fetchAlarms (filters : Obj) : G unit :=
  setLoading now "alarms" (VBool true);;
  try_catch
    (response ← await (getAlarms reads filters);
     r ← fields_of "success" response;
     if truthy (success r)
     then dispatch now (mkAction actionTypes.SET_ALARMS (PList (data r)))
     else setError now "alarms" (or_else (error r) (VStr "Failed to fetch alarms")))
    (fun err => setError now "alarms" (VStr (message err))).

End WithEnvironment.

End ProviderReads.

Module ProviderReadsSpec.
Import surveillanceAPI.

(** What a fetch records under its key when the call did not succeed: the
    transport error's message, the runtime's message on a [null] body, or
    the envelope's [error] field as it came ([fallback] when falsy). *)
Definition fetch_failure_text {D} (fallback : string) (o : Outcome D) : value :=
  match o with
  | Rejected e => VStr (message e)
  | Fulfilled BodyNull => VStr (message (SurveillanceProvider.null_read_error "success"))
  | Fulfilled (BodyEnvelope r) => or_else (error r) (VStr fallback)
  end.

(** What a successful acknowledge or resolve does to the store [s] to give
    [s']: the alarms whose id is [id] get [status] (their other
    properties are kept, in a new object), every other alarm is the same
    object, and nothing else changes. *)
Definition transitioned (status : string) (id : value) (s s' : Store.State) : Prop :=
  length (Store.alarms s') = length (Store.alarms s)
  /\ (forall i x, Store.alarms s !! i = Some x ->
        (get x "id" <> id -> Store.alarms s' !! i = Some x)
        /\ (get x "id" = id ->
            exists y, Store.alarms s' !! i = Some y
                      /\ get y "status" = VStr status
                      /\ get y "id" = id
                      /\ forall k, k <> "id" -> k <> "status" ->
                                   props y !! k = props x !! k))
  /\ Store.with_alarms (Store.alarms s) s' = s.

(** A backend that accepts every mutation with [{ success: true }] and
    whose reads are all unreachable. *)
Definition write_only_client : Client :=
  let down {D} : Outcome D := Rejected (mkError "Failed to fetch") in
  let yes {D} (d : D) : Outcome D :=
    Fulfilled (BodyEnvelope (mkResponse (VBool true) VUndefined d)) in
  mkClient down down (fun _ => down) (fun _ => yes VUndefined)
           (fun _ d => yes d) (fun _ => yes VUndefined)
           (fun _ => yes VUndefined) (fun _ => yes VUndefined).


(** A world whose store lists two active alarms, a1 and a7. *)
Definition two_alarm_world : SurveillanceProvider.World :=
  SurveillanceProvider.mkWorld
    (Store.mkSnapshot 1%positive
       (Store.with_alarms
          [ mkObj 10%positive {[ "id" := VStr "a1"; "status" := VStr "active";
                                 "camera" := VStr "cam-3" ]};
            mkObj 11%positive {[ "id" := VStr "a7"; "status" := VStr "active";
                                 "camera" := VStr "cam-5" ]} ]
          Store.initialState))
    20%positive.

(** A backend whose health endpoint is reached through [request] on the
    fetch result [f], and nothing else. *)
Definition probe_client (object_to_string : loc -> string)
    (f : SurveillanceAPI.FetchResult value) : Client :=
  let down {D} : Outcome D := Rejected (mkError "Failed to fetch") in
  mkClient (SurveillanceAPI.request object_to_string f)
           down (fun _ => down) (fun _ => down) (fun _ _ => down)
           (fun _ => down) (fun _ => down) (fun _ => down).

End ProviderReadsSpec.

(** ** JavaScript strings

    A string is its sequence of UTF-16 code units; this is what a regular
    expression without the [u] flag, [length] and [trim] work on. *)

Module JSString.

Definition str := list N.

(** The string of an ASCII text. *)
Definition of_ascii (s : string) : str :=
  (fun c => N.of_nat (Ascii.nat_of_ascii c)) <$> String.list_ascii_of_string s.

End JSString.

(** ** The identity provider's SDK: [account] *)

Module appwrite.

(** What a call rejects with: only [code] and [message] are read. *)
Record Exception := mkException { code : value; message : value }.

Inductive Settled (A : Type) :=
| Resolves (a : A)
| Rejects (e : Exception).
Arguments Resolves {A} _.
Arguments Rejects {A} _.

(** The calls of [account] the service makes; each settles as the
    environment says. *)
Record Account := mkAccount {
  get : Settled value;
  createEmailPasswordSession : JSString.str -> JSString.str -> Settled value;
  create : JSString.str -> JSString.str -> JSString.str -> Settled value;
  deleteSession : Settled unit;
  updateName : JSString.str -> Settled value;
  updatePassword : JSString.str -> JSString.str -> Settled unit;
  createRecovery : JSString.str -> Settled unit;
  createVerification : Settled unit
}.

End appwrite.

(** ** Authentication: the service singleton and the React context *)

Module Auth.

(** The fields of [authService]. *)
Record Service := mkService { currentUser : value; isAuthenticated : bool }.

(** The [useState] cells of [AuthProvider]. *)
Record Context := mkContext { user : value; isLoading : bool; error : value }.

Record World := mkWorld { service : Service; context : Context }.

(** The result objects the service and the context hand back; a field an
    object literal leaves out reads [undefined]. *)
Record Result := mkResult {
  success : bool;
  r_user : value;
  r_error : value;
  r_message : value;
  r_session : value
}.

(** Auth code: it transforms the world and returns, or throws. *)
Definition A (T : Type) : Type := World -> (appwrite.Exception + T) * World.

#[global] Instance A_ret : MRet A := fun T (x : T) w => (inr x, w).

#[global] Instance A_bind : MBind A := fun T U (f : T -> A U) (m : A T) w =>
  match m w with
  | (inr x, w') => f x w'
  | (inl e, w') => (inl e, w')
  end.

Definition throw {T} (e : appwrite.Exception) : A T := fun w => (inl e, w).

(** [try { body } catch (error) { handler }] *)
Definition try_catch {T} (body : A T) (handler : appwrite.Exception -> A T) : A T :=
  fun w =>
    match body w with
    | (inl e, w') => handler e w'
    | r => r
    end.

(** [try { body } finally { cleanup }]: the cleanup runs on every exit and
    the body's return value or exception stands. *)
Definition try_finally {T} (body : A T) (cleanup : A unit) : A T := fun w =>
  match body w with
  | (r, w') =>
      match cleanup w' with
      | (inr _, w'') => (r, w'')
      | (inl e, w'') => (inl e, w'')
      end
  end.

Definition await {T} (p : appwrite.Settled T) : A T :=
  match p with
  | appwrite.Resolves x => mret x
  | appwrite.Rejects e => throw e
  end.

(** [new Error(text)] *)
Definition new_Error (text : string) : appwrite.Exception :=
  appwrite.mkException VUndefined (VStr text).

(** Assignments to the service's fields. *)
Definition set_currentUser (v : value) : A unit := fun w =>
  (inr tt, mkWorld (mkService v (isAuthenticated (service w))) (context w)).
Definition set_isAuthenticated (b : bool) : A unit := fun w =>
  (inr tt, mkWorld (mkService (currentUser (service w)) b) (context w)).

(** The context's state setters. *)
Definition setUser (v : value) : A unit := fun w =>
  (inr tt, mkWorld (service w)
             (mkContext v (isLoading (context w)) (error (context w)))).
Definition setIsLoading (b : bool) : A unit := fun w =>
  (inr tt, mkWorld (service w)
             (mkContext (user (context w)) b (error (context w)))).
Definition setError (v : value) : A unit := fun w =>
  (inr tt, mkWorld (service w)
             (mkContext (user (context w)) (isLoading (context w)) v)).

(** [!!user] *)
Definition ctx_isAuthenticated (c : Context) : bool := truthy (user c).

Definition success_result (u msg sess : value) : Result :=
  mkResult true u VUndefined msg sess.
Definition failure_result (err : value) : Result :=
  mkResult false VUndefined err VUndefined VUndefined.

Module authService.

(** [formatError(error)] *)
Definition formatError (error : appwrite.Exception) : value :=
  if truthy (appwrite.code error) then
    if strict_eq (appwrite.code error) (VNum 401) then
      VStr "Invalid credentials. Please check your email and password."
    else if strict_eq (appwrite.code error) (VNum 409) then
      VStr "An account with this email already exists."
    else if strict_eq (appwrite.code error) (VNum 429) then
      VStr "Too many requests. Please try again later."
    else if strict_eq (appwrite.code error) (VNum 400) then
      or_else (appwrite.message error)
              (VStr "Invalid request. Please check your input.")
    else
      or_else (appwrite.message error) (VStr "An unexpected error occurred.")
  else or_else (appwrite.message error) (VStr "An unexpected error occurred.").

(** [isUserAuthenticated()] *)
Definition isUserAuthenticated (s : Service) : bool :=
  isAuthenticated s && negb (bool_decide (currentUser s = VNull)).

Section WithAccount.

Variable account : appwrite.Account.

Definition getCurrentUser : A value :=
  try_catch
    (u ← await (appwrite.get account); mret u)
    (fun _ => throw (new_Error "No active session")).

Definition init : A value :=
  u ← try_catch
        (u ← getCurrentUser;
         if truthy u
         then set_currentUser u;; set_isAuthenticated true;; mret (Some u)
         else mret None)
        (fun _ => set_currentUser VNull;; set_isAuthenticated false;; mret None);
  match u with
  | Some u => mret u
  | None => mret VNull
  end.

Definition login (email password : JSString.str) : A Result :=
  try_catch
    (session ← await (appwrite.createEmailPasswordSession account email password);
     u ← getCurrentUser;
     set_currentUser u;;
     set_isAuthenticated true;;
     mret (success_result u VUndefined session))
    (fun err => mret (failure_result (formatError err))).

Definition register (email password name : JSString.str) : A Result :=
  try_catch
    (u ← await (appwrite.create account email password name);
     loginResult ← login email password;
     if success loginResult
     then mret (success_result (r_user loginResult)
                  (VStr "Account created and logged in successfully") VUndefined)
     else mret (success_result u
                  (VStr "Account created successfully. Please login.") VUndefined))
    (fun err => mret (failure_result (formatError err))).

Definition logout : A Result :=
  try_catch
    (await (appwrite.deleteSession account);;
     set_currentUser VNull;;
     set_isAuthenticated false;;
     mret (success_result VUndefined (VStr "Logged out successfully") VUndefined))
    (fun err => mret (failure_result (formatError err))).

Definition updateProfile (name : JSString.str) : A Result :=
  try_catch
    (u ← await (appwrite.updateName account name);
     set_currentUser u;;
     mret (success_result u (VStr "Profile updated successfully") VUndefined))
    (fun err => mret (failure_result (formatError err))).

Definition changePassword (oldPassword newPassword : JSString.str) : A Result :=
  try_catch
    (await (appwrite.updatePassword account newPassword oldPassword);;
     mret (success_result VUndefined (VStr "Password changed successfully") VUndefined))
    (fun err => mret (failure_result (formatError err))).

Definition sendPasswordRecovery (email : JSString.str) : A Result :=
  try_catch
    (await (appwrite.createRecovery account email);;
     mret (success_result VUndefined (VStr "Password recovery email sent") VUndefined))
    (fun err => mret (failure_result (formatError err))).

Definition sendEmailVerification : A Result :=
  try_catch
    (await (appwrite.createVerification account);;
     mret (success_result VUndefined (VStr "Verification email sent") VUndefined))
    (fun err => mret (failure_result (formatError err))).

End WithAccount.

End authService.

Module AuthProvider.

Definition initialContext : Context := mkContext VNull true VNull.

Section WithAccount.

Variable account : appwrite.Account.

Definition init : A unit :=
  try_finally
    (try_catch
       (setIsLoading true;;
        loggedInUser ← authService.getCurrentUser account;
        setUser loggedInUser)
       (fun _ => setUser VNull))
    (setIsLoading false).

Definition login (email password : JSString.str) : A Result :=
  try_finally
    (try_catch
       (setError VNull;;
        setIsLoading true;;
        result ← authService.login account email password;
        if success result
        then setUser (r_user result);; mret result
        else setError (r_error result);; mret result)
       (fun _ =>
          let errorMessage := VStr "Login failed. Please try again." in
          setError errorMessage;; mret (failure_result errorMessage)))
    (setIsLoading false).

Definition register (email password name : JSString.str) : A Result :=
  try_finally
    (try_catch
       (setError VNull;;
        setIsLoading true;;
        result ← authService.register account email password name;
        if success result
        then setUser (r_user result);; mret result
        else setError (r_error result);; mret result)
       (fun _ =>
          let errorMessage := VStr "Registration failed. Please try again." in
          setError errorMessage;; mret (failure_result errorMessage)))
    (setIsLoading false).

Definition logout : A Result :=
  try_finally
    (try_catch
       (setError VNull;;
        setIsLoading true;;
        result ← authService.logout account;
        if success result
        then setUser VNull;; mret result
        else setError (r_error result);; mret result)
       (fun _ =>
          let errorMessage := VStr "Logout failed. Please try again." in
          setError errorMessage;; mret (failure_result errorMessage)))
    (setIsLoading false).

Definition updateProfile (name : JSString.str) : A Result :=
  try_catch
    (setError VNull;;
     result ← authService.updateProfile account name;
     if success result
     then setUser (r_user result);; mret result
     else setError (r_error result);; mret result)
    (fun _ =>
       let errorMessage := VStr "Profile update failed. Please try again." in
       setError errorMessage;; mret (failure_result errorMessage)).

Definition changePassword (oldPassword newPassword : JSString.str) : A Result :=
  try_catch
    (setError VNull;;
     result ← authService.changePassword account oldPassword newPassword;
     (if negb (success result) then setError (r_error result) else mret tt);;
     mret result)
    (fun _ =>
       let errorMessage := VStr "Password change failed. Please try again." in
       setError errorMessage;; mret (failure_result errorMessage)).

Definition sendPasswordRecovery (email : JSString.str) : A Result :=
  try_catch
    (setError VNull;;
     result ← authService.sendPasswordRecovery account email;
     (if negb (success result) then setError (r_error result) else mret tt);;
     mret result)
    (fun _ =>
       let errorMessage := VStr "Password recovery failed. Please try again." in
       setError errorMessage;; mret (failure_result errorMessage)).

Definition sendEmailVerification : A Result :=
  try_catch
    (setError VNull;;
     result ← authService.sendEmailVerification account;
     (if negb (success result) then setError (r_error result) else mret tt);;
     mret result)
    (fun _ =>
       let errorMessage := VStr "Email verification failed. Please try again." in
       setError errorMessage;; mret (failure_result errorMessage)).

End WithAccount.

Definition clearError : A unit := setError VNull.

End AuthProvider.

(** [ProtectedRoute]: what one render shows, and whether its effect
    navigates to the login page. *)
Module ProtectedRoute.

Inductive Rendered := Spinner | Nothing | Children.

Definition render (state_isLoading state_isAuthenticated : bool) : Rendered :=
  if state_isLoading then Spinner
  else if negb state_isAuthenticated then Nothing
  else Children.

(** The effect: [window.location.href = '/login']. *)
Definition redirects (state_isLoading state_isAuthenticated : bool) : bool :=
  negb state_isLoading && negb state_isAuthenticated.

(** A render of the route under the provider's current context. *)
Definition render_under (c : Context) : Rendered :=
  render (isLoading c) (ctx_isAuthenticated c).
Definition redirects_under (c : Context) : bool :=
  redirects (isLoading c) (ctx_isAuthenticated c).

End ProtectedRoute.

End Auth.

(** ** Regular expressions: the fragment the validators use

    Character classes, a class repeated at least [min] times ([*] is
    [{0,}], [+] is [{1,}]), look-ahead, and the anchors [^ ... $] around the
    whole expression.  The matcher tries every split, as backtracking
    does. *)

Module RegExp.
Import JSString.

Definition in_range (lo hi c : N) : bool := N.leb lo c && N.leb c hi.
Definition one_of (l : list N) (c : N) : bool := existsb (N.eqb c) l.

(** [\d], [[a-z]], [[A-Z]] *)
Definition digit : N -> bool := in_range 48 57.
Definition lower : N -> bool := in_range 97 122.
Definition upper : N -> bool := in_range 65 90.

(** LineTerminator: LF, CR, LS, PS; [.] is every other code unit. *)
Definition line_terminator : N -> bool := one_of [10; 13; 8232; 8233]%N.
Definition dot (c : N) : bool := negb (line_terminator c).

(** [\s]: WhiteSpace and LineTerminator. *)
Definition white_space (c : N) : bool :=
  in_range 9 13 c
  || one_of [32; 160; 5760; 8232; 8233; 8239; 8287; 12288; 65279]%N c
  || in_range 8192 8202 c.

Inductive atom :=
| One (c : N -> bool)
| Many (min : nat) (c : N -> bool).

Inductive item :=
| Atom (a : atom)
| Ahead (l : list atom).

(** [c{min,}] followed by what [k] accepts. *)
Fixpoint many (min : nat) (c : N -> bool) (k : str -> bool) (s : str) : bool :=
  match min with O => k s | S _ => false end
  || match s with
     | x :: s' => c x && many (Nat.pred min) c k s'
     | [] => false
     end.

(** The atoms match at the start of [s]. *)
Fixpoint prefix_match (l : list atom) (s : str) : bool :=
  match l with
  | [] => true
  | One c :: l' =>
      match s with
      | x :: s' => c x && prefix_match l' s'
      | [] => false
      end
  | Many min c :: l' => many min c (prefix_match l') s
  end.

(** [/^ r $/.test(s)] *)
Fixpoint test (r : list item) (s : str) : bool :=
  match r with
  | [] => match s with [] => true | _ => false end
  | Ahead l :: r' => prefix_match l s && test r' s
  | Atom (One c) :: r' =>
      match s with
      | x :: s' => c x && test r' s'
      | [] => false
      end
  | Atom (Many min c) :: r' => many min c (test r') s
  end.

End RegExp.

Module Validators.
Import JSString RegExp.

(** [[^\s@]] *)
Definition not_space_at (c : N) : bool := negb (white_space c || N.eqb c 64).

(** [/^[^\s@]+@[^\s@]+\.[^\s@]+$/] *)
Definition emailRegex : list item :=
  [ Atom (Many 1 not_space_at); Atom (One (N.eqb 64));
    Atom (Many 1 not_space_at); Atom (One (N.eqb 46));
    Atom (Many 1 not_space_at) ].

Definition isValidEmail (email : str) : bool := test emailRegex email.

(** [[a-zA-Z\d@$!%*?&]] *)
Definition password_char (c : N) : bool :=
  lower c || upper c || digit c || one_of [64; 36; 33; 37; 42; 63; 38]%N c.

(** [/^(?=.*[a-z])(?=.*[A-Z])(?=.*\d)[a-zA-Z\d@$!%*?&]{8,}$/] *)
Definition passwordRegex : list item :=
  [ Ahead [Many 0 dot; One lower];
    Ahead [Many 0 dot; One upper];
    Ahead [Many 0 dot; One digit];
    Atom (Many 8 password_char) ].

Definition isValidPassword (password : str) : bool := test passwordRegex password.

(** [s.trim()]: WhiteSpace and LineTerminator are removed at both ends. *)
Fixpoint trim_start (s : str) : str :=
  match s with
  | x :: s' => if white_space x then trim_start s' else s
  | [] => []
  end.
Definition trim (s : str) : str := reverse (trim_start (reverse (trim_start s))).

End Validators.

(** ** The login form's validation *)

Module Login.
Import JSString Validators.

Record FormData := mkFormData {
  email : str;
  password : str;
  name : str;
  confirmPassword : str
}.

(** [!s] on a string *)
Definition blank (s : str) : bool := match s with [] => true | _ => false end.

(** [validateForm()]: the errors it hands to [setValidationErrors], and
    its return value. *)
Definition validateForm (isRegisterMode : bool) (formData : FormData)
  : gmap string string * bool :=
  let errors : gmap string string := ∅ in
  let errors :=
    if blank (email formData)
    then <["email" := "Email is required"]> errors
    else if negb (isValidEmail (email formData))
    then <["email" := "Please enter a valid email address"]> errors
    else errors in
  let errors :=
    if blank (password formData)
    then <["password" := "Password is required"]> errors
    else if isRegisterMode && negb (isValidPassword (password formData))
    then <["password" := "Password does not meet requirements"]> errors
    else errors in
  let errors :=
    if isRegisterMode
    then
      let errors :=
        if blank (name formData) || (length (trim (name formData)) <? 2)%nat
        then <["name" := "Name must be at least 2 characters long"]> errors
        else errors in
      if blank (confirmPassword formData)
      then <["confirmPassword" := "Please confirm your password"]> errors
      else if negb (bool_decide (password formData = confirmPassword formData))
      then <["confirmPassword" := "Passwords do not match"]> errors
      else errors
    else errors in
  (errors, Nat.eqb (size errors) 0).

End Login.

(** The forms of [UserProfile] (src/frontend/src/components/UserProfile.jsx). *)
Module UserProfile.
Import JSString Validators.

Record PasswordData := mkPasswordData {
  oldPassword : str;
  newPassword : str;
  confirmPassword : str
}.

(** [validateProfileForm()], on [formData.name]: the errors it hands to
    [setValidationErrors], and its return value. *)
Definition validateProfileForm (name : str) : gmap string string * bool :=
  let errors : gmap string string := ∅ in
  let errors :=
    if Login.blank name || (length (trim name) <? 2)%nat
    then <["name" := "Name must be at least 2 characters long"]> errors
    else errors in
  (errors, Nat.eqb (size errors) 0).

(** [validatePasswordForm()] *)
Definition validatePasswordForm (passwordData : PasswordData)
  : gmap string string * bool :=
  let errors : gmap string string := ∅ in
  let errors :=
    if Login.blank (oldPassword passwordData)
    then <["oldPassword" := "Current password is required"]> errors
    else errors in
  let errors :=
    if Login.blank (newPassword passwordData)
    then <["newPassword" := "New password is required"]> errors
    else if negb (isValidPassword (newPassword passwordData))
    then <["newPassword" := "Password does not meet requirements"]> errors
    else errors in
  let errors :=
    if Login.blank (confirmPassword passwordData)
    then <["confirmPassword" := "Please confirm your new password"]> errors
    else if negb (bool_decide (newPassword passwordData
                               = confirmPassword passwordData))
    then <["confirmPassword" := "Passwords do not match"]> errors
    else errors in
  (errors, Nat.eqb (size errors) 0).

End UserProfile.

(** ** The video player component: connections and one-shot calls *)

Module Player.
Import ViamVideoPlayer.

(** What a [fetch] settles to, with what [response.json()] gives on the
    response ([inl msg]: it rejects with an error of that message). *)
Record Response := mkResponse { ok : bool; json : string + jvalue }.

Inductive Fetched :=
| FetchFails (message : string)
| FetchResponse (response : Response).

(** The gateway endpoints [connectToCamera] calls. *)
Record Gateway := mkGateway {
  viam_status : Fetched;
  viam_connect : Fetched;
  viam_cameras : Fetched
}.

(** The component instance: its state cells, its two refs, and the
    browser resources it has created: the [EventSource]s still open, the
    intervals still running, and how many [EventSource]s were constructed
    (the next one's identity). *)
Record Component := mkComponent {
  session : Session;
  eventSourceRef : option nat;
  intervalRef : option nat;
  open_sources : gset nat;
  running_intervals : gset nat;
  constructed : nat
}.

Definition initialComponent : Component :=
  mkComponent initialSession None None ∅ ∅ 0.

(** Component code: it returns or throws an error with a message. *)
Definition P (T : Type) : Type := Component -> (string + T) * Component.

#[global] Instance P_ret : MRet P := fun T (x : T) c => (inr x, c).

#[global] Instance P_bind : MBind P := fun T U (f : T -> P U) (m : P T) c =>
  match m c with
  | (inr x, c') => f x c'
  | (inl e, c') => (inl e, c')
  end.

Definition throw {T} (message : string) : P T := fun c => (inl message, c).

Definition try_catch {T} (body : P T) (handler : string -> P T) : P T := fun c =>
  match body c with
  | (inl e, c') => handler e c'
  | r => r
  end.

Definition try_finally {T} (body : P T) (cleanup : P unit) : P T := fun c =>
  match body c with
  | (r, c') =>
      match cleanup c' with
      | (inr _, c'') => (r, c'')
      | (inl e, c'') => (inl e, c'')
      end
  end.

(** A state setter call. *)
Definition set (f : Session -> Session) : P unit := fun c =>
  (inr tt, mkComponent (f (session c)) (eventSourceRef c) (intervalRef c)
             (open_sources c) (running_intervals c) (constructed c)).

Definition with_isConnected (b : bool) (st : Session) : Session :=
  mkSession b (isLoading st) (error st) (currentImage st) (detections st)
            (streamUrl st) (cameraInfo st).
Definition with_isLoading (b : bool) (st : Session) : Session :=
  mkSession (isConnected st) b (error st) (currentImage st) (detections st)
            (streamUrl st) (cameraInfo st).
Definition with_error (v : jvalue) (st : Session) : Session :=
  mkSession (isConnected st) (isLoading st) v (currentImage st) (detections st)
            (streamUrl st) (cameraInfo st).
Definition with_currentImage (v : jvalue) (st : Session) : Session :=
  mkSession (isConnected st) (isLoading st) (error st) v (detections st)
            (streamUrl st) (cameraInfo st).
Definition with_detections (v : jvalue) (st : Session) : Session :=
  mkSession (isConnected st) (isLoading st) (error st) (currentImage st) v
            (streamUrl st) (cameraInfo st).
Definition with_streamUrl (v : jvalue) (st : Session) : Session :=
  mkSession (isConnected st) (isLoading st) (error st) (currentImage st)
            (detections st) v (cameraInfo st).
Definition with_cameraInfo (v : jvalue) (st : Session) : Session :=
  mkSession (isConnected st) (isLoading st) (error st) (currentImage st)
            (detections st) (streamUrl st) v.

(** The message of the [TypeError] for reading [name] on [null] (V8's
    wording), and for calling [find] on what is not an array. *)
Definition null_read_message (name : string) : string :=
  "Cannot read properties of null (reading '" +:+ name +:+ "')".
Definition not_a_function_message : string :=
  "cameraData.cameras.find is not a function".

(** [v.name] inside component code. *)
Definition read (v : jvalue) (name : string) : P jvalue :=
  match get_prop v name with
  | Some x => mret x
  | None => throw (null_read_message name)
  end.

(** [await fetch(url)] and [await response.json()] *)
Definition await_fetch (f : Fetched) : P Response :=
  match f with
  | FetchFails message => throw message
  | FetchResponse response => mret response
  end.
Definition await_json (response : Response) : P jvalue :=
  match json response with
  | inl message => throw message
  | inr data => mret data
  end.

(** [elems.find(c => c.name === cameraName)] *)
Fixpoint find_by_name (cameraName : string) (elems : list jvalue) : P jvalue :=
  match elems with
  | [] => mret JUndefined
  | c :: rest =>
      n ← read c "name";
      match n with
      | JStr s => if String.eqb s cameraName then mret c
                  else find_by_name cameraName rest
      | _ => find_by_name cameraName rest
      end
  end.

(** [cameras?.find(c => c.name === cameraName)] *)
Definition find_camera (cameraName : string) (cameras : jvalue) : P jvalue :=
  match cameras with
  | JUndefined | JNull => mret JUndefined
  | JArr elems => find_by_name cameraName elems
  | _ => throw not_a_function_message
  end.

(** [eventSource.close()] on the source the ref holds. *)
Definition close_current : P unit := fun c =>
  (inr tt,
   match eventSourceRef c with
   | Some i => mkComponent (session c) (eventSourceRef c) (intervalRef c)
                 (open_sources c ∖ {[i]}) (running_intervals c) (constructed c)
   | None => c
   end).

Definition startLiveFeed : P unit := fun c =>
  match close_current c with
  | (_, c1) =>
      let eventSource := constructed c1 in
      (inr tt, mkComponent (session c1) (Some eventSource) (intervalRef c1)
                 (open_sources c1 ∪ {[eventSource]}) (running_intervals c1)
                 (S (constructed c1)))
  end.

Definition disconnect : P unit := fun c =>
  let c1 :=
    match eventSourceRef c with
    | Some i => mkComponent (session c) None (intervalRef c)
                  (open_sources c ∖ {[i]}) (running_intervals c) (constructed c)
    | None => c
    end in
  let c2 :=
    match intervalRef c1 with
    | Some t => mkComponent (session c1) (eventSourceRef c1) None
                  (open_sources c1) (running_intervals c1 ∖ {[t]}) (constructed c1)
    | None => c1
    end in
  (set (with_isConnected false);;
   set (with_currentImage JNull);;
   set (with_detections (JArr []))) c2.

Section WithGateway.

Variable gateway : Gateway.
Variable cameraName : string.

Definition connectToCamera : P unit :=
  try_finally
    (try_catch
       (set (with_isLoading true);;
        set (with_error JNull);;
        statusResponse ← await_fetch (viam_status gateway);
        statusData ← await_json statusResponse;
        connected ← read statusData "connected";
        (if negb (truthy connected)
         then connectResponse ← await_fetch (viam_connect gateway);
              if negb (ok connectResponse)
              then throw "Failed to connect to VIAM robot"
              else mret tt
         else mret tt : P unit);;
        cameraResponse ← await_fetch (viam_cameras gateway);
        (if ok cameraResponse
         then cameraData ← await_json cameraResponse;
              cameras ← read cameraData "cameras";
              camera ← find_camera cameraName cameras;
              if truthy camera
              then set (with_cameraInfo camera);;
                   stream_url ← read camera "stream_url";
                   if truthy stream_url
                   then set (with_streamUrl stream_url)
                   else mret tt
              else mret tt
         else mret tt : P unit);;
        startLiveFeed;;
        set (with_isConnected true))
       (fun message => set (with_error (JStr message))))
    (set (with_isLoading false)).

End WithGateway.

(** [getDetections], given what its fetch settles to. *)
Definition getDetections (f : Fetched) : P unit :=
  try_catch
    (response ← await_fetch f;
     if ok response
     then data ← await_json response;
          ok ← read data "success";
          if truthy ok
          then dets ← read data "detections";
               set (with_detections dets)
          else mret tt
     else mret tt : P unit)
    (fun _ => mret tt).

(** What can happen to a mounted component. *)
Inductive Event :=
| Connect (gateway : Gateway) (cameraName : string)
| Disconnect
| Message (event_data : string)
| StreamError
| Detections (f : Fetched).

Section Events.

Variable JSON_parse : string -> option jvalue.

(** One event.  The stream handlers run only while the source they are
    bound to is open: a closed [EventSource] delivers nothing. *)
Definition step (e : Event) (c : Component) : Component :=
  match e with
  | Connect gateway cameraName => snd (connectToCamera gateway cameraName c)
  | Disconnect => snd (disconnect c)
  | Message event_data =>
      match eventSourceRef c with
      | Some _ => snd (set (onmessage JSON_parse event_data) c)
      | None => c
      end
  | StreamError =>
      match eventSourceRef c with
      | Some _ => snd (set onerror c)
      | None => c
      end
  | Detections f => snd (getDetections f c)
  end.

Definition run (events : list Event) (c : Component) : Component :=
  foldl (fun c e => step e c) c events.

End Events.


End Player.

Module PlayerSpec.
Import ViamVideoPlayer Player.

(** [c'] differs from [c] at most in the [cameraInfo] and [streamUrl]
    cells. *)
Definition same_but_info (c c' : Component) : Prop :=
  eventSourceRef c' = eventSourceRef c
  /\ intervalRef c' = intervalRef c
  /\ open_sources c' = open_sources c
  /\ running_intervals c' = running_intervals c
  /\ constructed c' = constructed c
  /\ isConnected (session c') = isConnected (session c)
  /\ isLoading (session c') = isLoading (session c)
  /\ error (session c') = error (session c)
  /\ currentImage (session c') = currentImage (session c)
  /\ detections (session c') = detections (session c).

(** [c'] is [c] after a new live feed was started and the session marked
    connected: the source the ref held is closed, the new one is open and
    held by the ref. *)
Definition started (c c' : Component) : Prop :=
  isConnected (session c') = true
  /\ isLoading (session c') = isLoading (session c)
  /\ error (session c') = error (session c)
  /\ currentImage (session c') = currentImage (session c)
  /\ detections (session c') = detections (session c)
  /\ eventSourceRef c' = Some (constructed c)
  /\ constructed c' = S (constructed c)
  /\ open_sources c'
     = (match eventSourceRef c with
        | Some i => open_sources c ∖ {[i]}
        | None => open_sources c
        end) ∪ {[constructed c]}
  /\ intervalRef c' = intervalRef c
  /\ running_intervals c' = running_intervals c.

(** A computation that changes at most [cameraInfo] and [streamUrl]. *)
Definition quietly {T} (m : P T) : Prop :=
  forall c, same_but_info c (snd (m c)).

(** A computation that either throws having changed at most
    [cameraInfo] and [streamUrl], or returns having started a feed. *)
Definition starts_or_throws (m : P unit) : Prop :=
  forall c,
    match m c with
    | (inl _, c') => same_but_info c c'
    | (inr _, c') =>
        exists c1, same_but_info c c1 /\ started c1 c'
    end.

(** The steps of [connectToCamera] after it has raised the loading flag
    and cleared the error, up to the end of its [try] block. *)
Definition connect_steps (gateway : Gateway) (cameraName : string) : P unit :=
  statusResponse ← await_fetch (viam_status gateway);
  statusData ← await_json statusResponse;
  connected ← read statusData "connected";
  (if negb (truthy connected)
   then connectResponse ← await_fetch (viam_connect gateway);
        if negb (ok connectResponse)
        then throw "Failed to connect to VIAM robot"
        else mret tt
   else mret tt : P unit);;
  cameraResponse ← await_fetch (viam_cameras gateway);
  (if ok cameraResponse
   then cameraData ← await_json cameraResponse;
        cameras ← read cameraData "cameras";
        camera ← find_camera cameraName cameras;
        if truthy camera
        then set (with_cameraInfo camera);;
             stream_url ← read camera "stream_url";
             if truthy stream_url
             then set (with_streamUrl stream_url)
             else mret tt
        else mret tt
   else mret tt : P unit);;
  startLiveFeed;;
  set (with_isConnected true).

(** A gateway that is up and lists a camera named front-gate. *)
Definition gateway_up : Gateway :=
  mkGateway
    (FetchResponse (mkResponse true (inr (JObj [("connected", JBool true)]))))
    (FetchFails "not called")
    (FetchResponse
       (mkResponse true
          (inr (JObj [("cameras",
                       JArr [JObj [("name", JStr "front-gate");
                                   ("type", JStr "webcam")]])])))).

(** A gateway that is down and refuses the connect call. *)
Definition gateway_down : Gateway :=
  mkGateway
    (FetchResponse (mkResponse true (inr (JObj [("connected", JBool false)]))))
    (FetchResponse (mkResponse false (inl "Unexpected end of JSON input")))
    (FetchFails "not called").

End PlayerSpec.

(** ** Properties of the store *)

Module StoreProps.
Import Store StoreSpec.

Lemma strict_eq_true (a b : value) : strict_eq a b = true <-> a = b.
Proof.
  destruct a, b; simpl; split; intros H; try discriminate; try reflexivity;
    try (injection H as ->).
  all: try (apply bool_decide_eq_true in H; congruence).
  all: try (apply Z.eqb_eq in H; congruence).
  all: try (apply String.eqb_eq in H; congruence).
  all: try (apply Pos.eqb_eq in H; congruence).
  all: try (apply bool_decide_eq_true; reflexivity).
  all: try (apply Z.eqb_refl).
  all: try (apply String.eqb_refl).
  all: try (apply Pos.eqb_refl).
Qed.

Lemma merge_by_id_nil p n : merge_by_id p [] n = Some ([], n).
Proof. reflexivity. Qed.

Lemma merge_by_id_cons p x l n :
  merge_by_id p (x :: l) n =
  if strict_eq (get x "id") (get p "id")
  then match merge_by_id p l (Pos.succ n) with
       | Some (l', n') => Some (mkObj n (spread2 (props x) (props p)) :: l', n')
       | None => None
       end
  else match merge_by_id p l n with
       | Some (l', n') => Some (x :: l', n')
       | None => None
       end.
Proof.
  unfold merge_by_id. simpl. destruct (strict_eq _ _); reflexivity.
Qed.

(** [map] never fails; it keeps the length, returns the very same object
    where the ids differ, and a newly allocated merged copy where they
    agree. *)
Lemma merge_by_id_spec p l : forall n,
  exists l' n', merge_by_id p l n = Some (l', n') /\
    length l' = length l /\ (n <= n')%positive /\
    forall i x, l !! i = Some x ->
      if strict_eq (get x "id") (get p "id")
      then exists a, l' !! i = Some (mkObj a (spread2 (props x) (props p)))
                     /\ (n <= a < n')%positive
      else l' !! i = Some x.
Proof.
  induction l as [|y l IH]; intros n.
  - exists [], n. rewrite merge_by_id_nil. repeat split; [lia|].
    intros i x Hi. discriminate.
  - rewrite merge_by_id_cons.
    destruct (strict_eq (get y "id") (get p "id")) eqn:E.
    + destruct (IH (Pos.succ n)) as (l' & n' & -> & Hlen & Hle & Hidx).
      eexists _, _. split; [reflexivity|].
      split; [simpl; congruence|]. split; [lia|].
      intros [|i] x Hi; simpl in *.
      * injection Hi as <-. rewrite E. eexists. split; [reflexivity|lia].
      * specialize (Hidx i x Hi).
        destruct (strict_eq (get x "id") (get p "id")); [|exact Hidx].
        destruct Hidx as (a & Ha & Hr). exists a. split; [exact Ha|lia].
    + destruct (IH n) as (l' & n' & -> & Hlen & Hle & Hidx).
      eexists _, _. split; [reflexivity|].
      split; [simpl; congruence|]. split; [lia|].
      intros [|i] x Hi; simpl in *.
      * injection Hi as <-. rewrite E. reflexivity.
      * exact (Hidx i x Hi).
Qed.

(** When no element has the payload's id, [map] returns the same elements. *)
Lemma merge_by_id_no_match p l : forall n,
  (forall x, x ∈ l -> get x "id" <> get p "id") ->
  merge_by_id p l n = Some (l, n).
Proof.
  induction l as [|y l IH]; intros n Hno; [reflexivity|].
  rewrite merge_by_id_cons.
  destruct (strict_eq (get y "id") (get p "id")) eqn:E.
  - apply strict_eq_true in E. exfalso. apply (Hno y); [left|exact E].
  - rewrite IH; [reflexivity|]. intros x Hx. apply Hno. right. exact Hx.
Qed.

(** Running the reducer on an action whose type tag is known: the [switch]
    is resolved case by case. *)
Ltac run_reducer :=
  cbv [surveillanceReducer type payload];
  repeat (case_decide; [ try discriminate | try congruence ]);
  cbv [mbind M_bind alloc mret M_ret].

(** *** Full replacement of a collection *)

(** C1, as the code has it: SET_TOWERS, SET_CAMERAS and SET_ALARMS replace
    their collection and leave the error map exactly as it was, so an entry
    recorded for the resource stays; CLEAR_ERROR is the command that
    removes the entry of its key. *)
Theorem set_collection_keeps_errors now (s : Snapshot) (L : list Obj) (n : loc) :
  (exists s' n',
      surveillanceReducer now s (mkAction actionTypes.SET_TOWERS (PList L)) n
        = Some (s', n')
      /\ towers (sval s') = L /\ errors (sval s') = errors (sval s))
  /\ (exists s' n',
      surveillanceReducer now s (mkAction actionTypes.SET_CAMERAS (PList L)) n
        = Some (s', n')
      /\ cameras (sval s') = L /\ errors (sval s') = errors (sval s))
  /\ (exists s' n',
      surveillanceReducer now s (mkAction actionTypes.SET_ALARMS (PList L)) n
        = Some (s', n')
      /\ alarms (sval s') = L /\ errors (sval s') = errors (sval s))
  /\ (forall key, exists s' n',
      surveillanceReducer now s (mkAction actionTypes.CLEAR_ERROR (PKey key)) n
        = Some (s', n')
      /\ errors (sval s') !! key = None).
Proof.
  repeat split; try intros key; eexists _, _;
    (split; [run_reducer; reflexivity|]); simpl; auto.
  apply lookup_delete_eq.
Qed.

(** C1, refuted as stated: after a failed tower fetch has recorded its
    error, a successful SET_TOWERS leaves [errors.towers] in place. *)
Lemma set_towers_leaves_stale_error :
  exists s' n',
    dispatch_all "2024-05-01T10:00:00.000Z"
      [ mkAction actionTypes.SET_ERROR (PKeyError "towers" (VStr "db unreachable"));
        mkAction actionTypes.SET_TOWERS (PList []) ]
      (mkSnapshot 1%positive initialState) 2%positive = Some (s', n')
    /\ errors (sval s') !! "towers" = Some (VStr "db unreachable").
Proof. eexists _, _. split; [vm_compute; reflexivity|]. vm_compute. reflexivity. Qed.

(** C8: SET_TOWERS(L) applied twice in a row gives towers = L and
    loading.towers = false after the first and after the second
    application; the two resulting snapshots hold the same fields. *)
Theorem set_towers_idempotent now1 now2 (s : Snapshot) (L : list Obj) (n : loc) :
  exists s1 n1 s2 n2,
    surveillanceReducer now1 s (mkAction actionTypes.SET_TOWERS (PList L)) n
      = Some (s1, n1)
    /\ surveillanceReducer now2 s1 (mkAction actionTypes.SET_TOWERS (PList L)) n1
      = Some (s2, n2)
    /\ towers (sval s1) = L /\ towers (sval s2) = L
    /\ loading (sval s1) !! "towers" = Some (VBool false)
    /\ loading (sval s2) !! "towers" = Some (VBool false)
    /\ sval s2 = sval s1.
Proof.
  eexists _, _, _, _. split; [run_reducer; reflexivity|].
  split; [run_reducer; reflexivity|]. simpl.
  repeat split.
  - apply lookup_insert_eq.
  - apply lookup_insert_eq.
  - unfold with_loading, with_towers; simpl. f_equal. apply insert_insert_eq.
Qed.

(** *** Alarms *)


(** An alarm pushed twice is listed twice and counted twice. *)
Lemma add_alarm_twice now (s : Snapshot) (alarm : Obj) (n : loc) :
  exists s' n',
    dispatch_all now [ mkAction actionTypes.ADD_ALARM (PObject alarm);
                       mkAction actionTypes.ADD_ALARM (PObject alarm) ] s n
      = Some (s', n')
    /\ alarms (sval s') = alarm :: alarm :: alarms (sval s)
    /\ active_alarms_count (overview (sval s'))
       = active_alarms_count (overview (sval s)) + 2.
Proof.
  eexists _, _. split.
  - cbn [dispatch_all]. cbv [mbind M_bind]. run_reducer. run_reducer.
    reflexivity.
  - simpl. split; [reflexivity|lia].
Qed.

Lemma spread2_lookup (a b : gmap string value) (k : string) :
  spread2 a b !! k = match b !! k with Some v => Some v | None => a !! k end.
Proof.
  unfold spread2. rewrite lookup_union. destruct (b !! k), (a !! k); reflexivity.
Qed.



(** *** Totality, unknown commands, and the clock *)

Lemma reducer_total now (s : Snapshot) (a : Action) (n : loc) :
  well_typed a -> exists s' n', surveillanceReducer now s a n = Some (s', n').
Proof.
  intros Hwt. destruct Hwt.
  1-8, 12: run_reducer; eexists _, _; reflexivity.
  1-3: run_reducer;
       match goal with
       | |- context [merge_by_id ?p ?l ?m] =>
           destruct (merge_by_id_spec p l m) as (l' & n2 & -> & _)
       end; eexists _, _; reflexivity.
  cbv [surveillanceReducer type payload].
  unfold actionTypes.all in H.
  repeat (apply not_elem_of_cons in H; destruct H as [? H]).
  repeat (case_decide; [contradiction|]).
  eexists _, _. reflexivity.
Qed.






(** *** Errors and loading flags *)

Lemma initial_error_implies_idle : error_implies_idle initialState.
Proof. intros k [v Hv]. simpl in Hv. rewrite lookup_empty in Hv. discriminate. Qed.

(** A flag overwritten with [false] keeps the invariant for a fixed error map. *)
Lemma idle_after_clearing_flag (s : State) (key k : string) :
  error_implies_idle s -> is_Some (errors s !! k) ->
  <[key := VBool false]> (loading s) !! k = Some (VBool false).
Proof.
  intros Hinv Hk. destruct (decide (key = k)) as [->|Hne].
  - apply lookup_insert_eq.
  - rewrite lookup_insert_ne by exact Hne. apply Hinv, Hk.
Qed.

Lemma step_preserves_error_implies_idle now snap a n snap' n' :
  error_implies_idle (sval snap) ->
  ~ raises_flag_over_error (sval snap) a ->
  surveillanceReducer now snap a n = Some (snap', n') ->
  error_implies_idle (sval snap').
Proof.
  intros Hinv Hg. unfold surveillanceReducer.
  repeat case_decide; destruct (payload a) eqn:Hp; try discriminate.
  all: cbv [mbind M_bind alloc mret M_ret].
  all: try match goal with
       | |- context [merge_by_id ?p ?l ?m] =>
           destruct (merge_by_id_spec p l m) as (l' & n2 & -> & _)
       end.
  all: intros [= <- <-]; try exact Hinv; intros k Hk; simpl in *.
  all: try (apply Hinv; exact Hk).
  all: try (apply idle_after_clearing_flag; [exact Hinv | exact Hk]).
  - (* SET_LOADING *)
    destruct (decide (key = k)) as [->|Hne].
    + rewrite lookup_insert_eq. f_equal.
      destruct (decide (value0 = VBool false)) as [->|Hv]; [reflexivity|].
      exfalso. apply Hg. exists k, value0. auto.
    + rewrite lookup_insert_ne by exact Hne. apply Hinv, Hk.
  - (* SET_ERROR *)
    destruct (decide (key = k)) as [->|Hne].
    + apply lookup_insert_eq.
    + rewrite lookup_insert_ne by exact Hne. apply Hinv.
      rewrite lookup_insert_ne in Hk by exact Hne. exact Hk.
  - (* CLEAR_ERROR *)
    apply Hinv. destruct (decide (key = k)) as [->|Hne].
    + rewrite lookup_delete_eq in Hk. destruct Hk as [? Hk]. discriminate.
    + rewrite lookup_delete_ne in Hk by exact Hne. exact Hk.
Qed.

Lemma guarded_reachable_error_implies_idle snap n :
  reachable_by (fun s a => ~ raises_flag_over_error s a) snap n ->
  error_implies_idle (sval snap).
Proof.
  induction 1 as [a n | now snap n action snap' n' _ IH Hg Hstep].
  - exact initial_error_implies_idle.
  - exact (step_preserves_error_implies_idle _ _ _ _ _ _ IH Hg Hstep).
Qed.

(** C2, as the code has it: "every key with an error entry has its loading
    flag equal to false" holds in the initial state; it is preserved by
    every command except a SET_LOADING that writes a value other than
    false for a key that has an error entry; hence it holds in every state
    reached from the initial one by commands none of which is such a
    SET_LOADING; and SET_ERROR(key, msg) always leaves errors[key] = msg
    with loading[key] = false. *)
Theorem error_implies_idle_when_guarded :
  error_implies_idle initialState
  /\ (forall now snap a n snap' n',
        error_implies_idle (sval snap) ->
        ~ raises_flag_over_error (sval snap) a ->
        surveillanceReducer now snap a n = Some (snap', n') ->
        error_implies_idle (sval snap'))
  /\ (forall snap n,
        reachable_by (fun s a => ~ raises_flag_over_error s a) snap n ->
        error_implies_idle (sval snap))
  /\ (forall now snap key msg n, exists snap' n',
        surveillanceReducer now snap
          (mkAction actionTypes.SET_ERROR (PKeyError key msg)) n = Some (snap', n')
        /\ errors (sval snap') !! key = Some msg
        /\ loading (sval snap') !! key = Some (VBool false)).
Proof.
  split; [exact initial_error_implies_idle|].
  split; [exact step_preserves_error_implies_idle|].
  split; [exact guarded_reachable_error_implies_idle|].
  intros now snap key msg n. eexists _, _.
  split; [run_reducer; reflexivity|]. simpl.
  split; apply lookup_insert_eq.
Qed.

(** After a failed tower fetch the invariant holds, with the towers flag
    back to false. *)
Lemma error_implies_idle_when_guarded_witness :
  exists snap n,
    dispatch_all "2024-05-01T10:00:00.000Z"
      [ mkAction actionTypes.SET_LOADING (PKeyValue "towers" (VBool true));
        mkAction actionTypes.SET_ERROR (PKeyError "towers" (VStr "db unreachable")) ]
      (mkSnapshot 1%positive initialState) 2%positive = Some (snap, n)
    /\ error_implies_idle (sval snap)
    /\ loading (sval snap) !! "towers" = Some (VBool false).
Proof.
  eexists _, _. split; [vm_compute; reflexivity|].
  destruct error_implies_idle_when_guarded as (_ & _ & Hreach & _).
  split.
  - apply (Hreach _ 4%positive).
    eapply (reachable_step _ "2024-05-01T10:00:00.000Z" _ 3%positive
              (mkAction actionTypes.SET_ERROR
                 (PKeyError "towers" (VStr "db unreachable")))).
    + eapply (reachable_step _ "2024-05-01T10:00:00.000Z" _ 2%positive
                (mkAction actionTypes.SET_LOADING
                   (PKeyValue "towers" (VBool true)))).
      * apply (reachable_init _ 1%positive).
      * intros (k & v & _ & Hp & _ & [e He]). simpl in Hp, He.
        rewrite lookup_empty in He. discriminate He.
      * vm_compute. reflexivity.
    + intros (k & v & Ht & _). discriminate Ht.
    + vm_compute. reflexivity.
  - vm_compute. reflexivity.
Defined.

(** C2, refuted as stated: a tower fetch that failed, followed by the
    start of the next tower fetch, reaches a state where errors.towers is
    present while loading.towers is true. *)
Lemma loading_raised_over_error :
  exists snap n,
    reachable snap n
    /\ errors (sval snap) !! "towers" = Some (VStr "db unreachable")
    /\ loading (sval snap) !! "towers" = Some (VBool true)
    /\ ~ error_implies_idle (sval snap).
Proof.
  pose (a1 := mkAction actionTypes.SET_ERROR
                (PKeyError "towers" (VStr "db unreachable"))).
  pose (a2 := mkAction actionTypes.SET_LOADING (PKeyValue "towers" (VBool true))).
  destruct (surveillanceReducer "2024-05-01T10:00:00.000Z"
              (mkSnapshot 1%positive initialState) a1 2%positive)
    as [[s1 n1]|] eqn:H1; [|vm_compute in H1; discriminate H1].
  destruct (surveillanceReducer "2024-05-01T10:00:30.000Z" s1 a2 n1)
    as [[s2 n2]|] eqn:H2;
    [|vm_compute in H1; injection H1 as <- <-; vm_compute in H2; discriminate H2].
  assert (He : errors (sval s2) !! "towers" = Some (VStr "db unreachable")).
  { vm_compute in H1. injection H1 as <- <-.
    vm_compute in H2. injection H2 as <- <-. vm_compute. reflexivity. }
  assert (Hl : loading (sval s2) !! "towers" = Some (VBool true)).
  { vm_compute in H1. injection H1 as <- <-.
    vm_compute in H2. injection H2 as <- <-. vm_compute. reflexivity. }
  exists s2, n2. split; [|split; [exact He|split; [exact Hl|]]].
  - eapply (reachable_step _ _ s1 n1 a2); [|exact I|exact H2].
    eapply (reachable_step _ _ _ 2%positive a1); [|exact I|exact H1].
    apply reachable_init.
  - intros Hinv. specialize (Hinv "towers" (ex_intro _ _ He)).
    rewrite Hl in Hinv. discriminate Hinv.
Qed.

End StoreProps.

(** ** Properties of the provider *)

Module ProviderProps.
Import Store surveillanceAPI SurveillanceProvider ProviderSpec.

Lemma setError_records now (key : string) (err : Error) (w : World) :
  exists w', setError now key (VStr (message err)) w = Some (Normal tt, w')
             /\ recorded key err w'.
Proof.
  unfold setError, dispatch. StoreProps.run_reducer.
  eexists. split; [reflexivity|]. split; simpl; apply lookup_insert_eq.
Qed.

Lemma setConnectionStatus_sets now (status : string) (w : World) :
  exists w', setConnectionStatus now status w = Some (Normal tt, w')
             /\ connectionStatus (sval (store w')) = status
             /\ with_connectionStatus (connectionStatus (sval (store w)))
                  (sval (store w')) = sval (store w).
Proof.
  unfold setConnectionStatus, dispatch. StoreProps.run_reducer.
  eexists. split; [reflexivity|]. simpl. split; [reflexivity|].
  destruct w as [[a [? ? ? ? ? ? ? ?]] n]. reflexivity.
Qed.

(** The handler shared by the five mutations: record, then rethrow. *)
Lemma record_and_rethrow {A} now (key : string) (err : Error) (w : World) :
  exists w', (setError now key (VStr (message err));; throw (A := A) err) w
               = Some (Throw err, w')
             /\ recorded key err w'.
Proof.
  destruct (setError_records now key err w) as (w' & Hrun & Hrec).
  exists w'. split; [|exact Hrec].
  cbv [mbind G_bind]. rewrite Hrun. reflexivity.
Qed.

Lemma try_catch_throw {A} (body : G A) (handler : Error -> G A) w e w1 :
  body w = Some (Throw e, w1) -> try_catch body handler w = handler e w1.
Proof. intros H. unfold try_catch. rewrite H. reflexivity. Qed.

(** A failed call makes the guarded block throw [failure_error] before
    anything is dispatched; the handler then records and rethrows it. *)
Ltac failing_mutation Hfail :=
  match goal with
  | |- context [await ?o] => destruct o as [e | [ | r]]
  end;
  simpl in Hfail |- *;
  match goal with
  | |- ex (fun w' => try_catch _ _ ?w = Some (Throw ?err, _) /\ _) =>
      rewrite (try_catch_throw _ _ w err w);
      [ apply record_and_rethrow
      | cbv [mbind G_bind await fields_of throw mret G_ret];
        try rewrite Hfail; reflexivity ]
  end.

Section Mutations.

Variable now : string.
Variable api : Client.
Variable object_to_string : loc -> string.

Lemma createTower_failure (towerData : Obj) (w : World) :
  responded_ok (surveillanceAPI.createTower api towerData) = false ->
  exists w',
    SurveillanceProvider.createTower now api object_to_string towerData w
      = Some (Throw (failure_error object_to_string "Failed to create tower"
                       (surveillanceAPI.createTower api towerData)), w')
    /\ recorded "towers"
         (failure_error object_to_string "Failed to create tower"
            (surveillanceAPI.createTower api towerData)) w'.
Proof. intros Hfail. unfold SurveillanceProvider.createTower. failing_mutation Hfail. Qed.

Lemma updateTower_failure (towerId : value) (towerData : Obj) (w : World) :
  responded_ok (surveillanceAPI.updateTower api towerId towerData) = false ->
  exists w',
    SurveillanceProvider.updateTower now api object_to_string towerId towerData w
      = Some (Throw (failure_error object_to_string "Failed to update tower"
                       (surveillanceAPI.updateTower api towerId towerData)), w')
    /\ recorded "towers"
         (failure_error object_to_string "Failed to update tower"
            (surveillanceAPI.updateTower api towerId towerData)) w'.
Proof. intros Hfail. unfold SurveillanceProvider.updateTower. failing_mutation Hfail. Qed.

Lemma createCamera_failure (cameraData : Obj) (w : World) :
  responded_ok (surveillanceAPI.createCamera api cameraData) = false ->
  exists w',
    SurveillanceProvider.createCamera now api object_to_string cameraData w
      = Some (Throw (failure_error object_to_string "Failed to create camera"
                       (surveillanceAPI.createCamera api cameraData)), w')
    /\ recorded "cameras"
         (failure_error object_to_string "Failed to create camera"
            (surveillanceAPI.createCamera api cameraData)) w'.
Proof. intros Hfail. unfold SurveillanceProvider.createCamera. failing_mutation Hfail. Qed.

Lemma acknowledgeAlarm_failure (alarmId : value) (w : World) :
  responded_ok (surveillanceAPI.acknowledgeAlarm api alarmId) = false ->
  exists w',
    SurveillanceProvider.acknowledgeAlarm now api object_to_string alarmId w
      = Some (Throw (failure_error object_to_string "Failed to acknowledge alarm"
                       (surveillanceAPI.acknowledgeAlarm api alarmId)), w')
    /\ recorded "alarms"
         (failure_error object_to_string "Failed to acknowledge alarm"
            (surveillanceAPI.acknowledgeAlarm api alarmId)) w'.
Proof. intros Hfail. unfold SurveillanceProvider.acknowledgeAlarm. failing_mutation Hfail. Qed.

Lemma resolveAlarm_failure (alarmId : value) (w : World) :
  responded_ok (surveillanceAPI.resolveAlarm api alarmId) = false ->
  exists w',
    SurveillanceProvider.resolveAlarm now api object_to_string alarmId w
      = Some (Throw (failure_error object_to_string "Failed to resolve alarm"
                       (surveillanceAPI.resolveAlarm api alarmId)), w')
    /\ recorded "alarms"
         (failure_error object_to_string "Failed to resolve alarm"
            (surveillanceAPI.resolveAlarm api alarmId)) w'.
Proof. intros Hfail. unfold SurveillanceProvider.resolveAlarm. failing_mutation Hfail. Qed.

End Mutations.

(** C6: for createTower, updateTower, createCamera, acknowledgeAlarm and
    resolveAlarm: when the backend call is rejected, or comes back without
    a truthy [success] (success:false in particular, or a null body), the
    operation throws to its caller and the store's error map holds the
    thrown error's message under the owning key ("towers", "cameras" or
    "alarms"), whose loading flag is false.  The thrown error is the
    transport error itself, or one built from the envelope's error field
    (a fixed fallback text when that field is empty). *)
Theorem mutation_failure_thrown_and_recorded
    now (api : Client) (object_to_string : loc -> string) :
  (forall towerData w,
      responded_ok (surveillanceAPI.createTower api towerData) = false ->
      exists err w',
        SurveillanceProvider.createTower now api object_to_string towerData w
          = Some (Throw err, w')
        /\ recorded "towers" err w'
        /\ err = failure_error object_to_string "Failed to create tower"
                   (surveillanceAPI.createTower api towerData))
  /\ (forall towerId towerData w,
      responded_ok (surveillanceAPI.updateTower api towerId towerData) = false ->
      exists err w',
        SurveillanceProvider.updateTower now api object_to_string towerId towerData w
          = Some (Throw err, w')
        /\ recorded "towers" err w'
        /\ err = failure_error object_to_string "Failed to update tower"
                   (surveillanceAPI.updateTower api towerId towerData))
  /\ (forall cameraData w,
      responded_ok (surveillanceAPI.createCamera api cameraData) = false ->
      exists err w',
        SurveillanceProvider.createCamera now api object_to_string cameraData w
          = Some (Throw err, w')
        /\ recorded "cameras" err w'
        /\ err = failure_error object_to_string "Failed to create camera"
                   (surveillanceAPI.createCamera api cameraData))
  /\ (forall alarmId w,
      responded_ok (surveillanceAPI.acknowledgeAlarm api alarmId) = false ->
      exists err w',
        SurveillanceProvider.acknowledgeAlarm now api object_to_string alarmId w
          = Some (Throw err, w')
        /\ recorded "alarms" err w'
        /\ err = failure_error object_to_string "Failed to acknowledge alarm"
                   (surveillanceAPI.acknowledgeAlarm api alarmId))
  /\ (forall alarmId w,
      responded_ok (surveillanceAPI.resolveAlarm api alarmId) = false ->
      exists err w',
        SurveillanceProvider.resolveAlarm now api object_to_string alarmId w
          = Some (Throw err, w')
        /\ recorded "alarms" err w'
        /\ err = failure_error object_to_string "Failed to resolve alarm"
                   (surveillanceAPI.resolveAlarm api alarmId))
  /\ (forall e : Error, responded_ok (D := value) (Rejected e) = false)
  /\ (forall (err : value) (d : value),
        responded_ok (Fulfilled (BodyEnvelope (mkResponse (VBool false) err d)))
        = false).
Proof.
  repeat split; try reflexivity.
  - intros towerData w H.
    destruct (createTower_failure now api object_to_string towerData w H)
      as (w' & Hrun & Hrec). eauto.
  - intros towerId towerData w H.
    destruct (updateTower_failure now api object_to_string towerId towerData w H)
      as (w' & Hrun & Hrec). eauto.
  - intros cameraData w H.
    destruct (createCamera_failure now api object_to_string cameraData w H)
      as (w' & Hrun & Hrec). eauto.
  - intros alarmId w H.
    destruct (acknowledgeAlarm_failure now api object_to_string alarmId w H)
      as (w' & Hrun & Hrec). eauto.
  - intros alarmId w H.
    destruct (resolveAlarm_failure now api object_to_string alarmId w H)
      as (w' & Hrun & Hrec). eauto.
Qed.

(** A refused tower creation and an alarm acknowledgement attempted while
    the backend is unreachable. *)
Lemma mutation_failure_thrown_and_recorded_witness :
  let ots := fun _ : loc => "[object Object]" in
  let tower := mkObj 5%positive {[ "name" := VStr "North gate"; "code" := VStr "T-01" ]} in
  (exists err w',
      SurveillanceProvider.createTower "2024-05-01T10:00:00.000Z"
        (refusing_client "tower code already in use") ots tower initialWorld
        = Some (Throw err, w')
      /\ errors (sval (store w')) !! "towers"
         = Some (VStr "tower code already in use")
      /\ message err = "tower code already in use")
  /\ (exists err w',
      SurveillanceProvider.acknowledgeAlarm "2024-05-01T10:00:00.000Z"
        offline_client ots (VStr "a7") initialWorld
        = Some (Throw err, w')
      /\ errors (sval (store w')) !! "alarms" = Some (VStr "Failed to fetch")).
Proof.
  intros ots tower. split.
  - destruct (mutation_failure_thrown_and_recorded "2024-05-01T10:00:00.000Z"
                (refusing_client "tower code already in use") ots)
      as (Hcreate & _).
    destruct (Hcreate tower initialWorld) as (err & w' & Hrun & [Herr _] & ->);
      [reflexivity|].
    eexists _, w'. split; [exact Hrun|]. split; [exact Herr|reflexivity].
  - destruct (mutation_failure_thrown_and_recorded "2024-05-01T10:00:00.000Z"
                offline_client ots)
      as (_ & _ & _ & Hack & _).
    destruct (Hack (VStr "a7") initialWorld) as (err & w' & Hrun & [Herr _] & ->);
      [reflexivity|].
    eexists _, w'. split; [exact Hrun|exact Herr].
Defined.

(** *** The health probe *)

(** C7: a run of the health probe always completes, touches nothing but
    connectionStatus, and leaves it 'connected' exactly when the call came
    back with an envelope whose [success] holds, 'disconnected' otherwise:
    so on every rejected call, on a null body, and on success:false; for a
    boolean [success] field, 'connected' exactly when it is true. *)
Theorem health_probe_sets_status now (api : Client) (w : World) :
  exists w',
    checkConnection now api w = Some (Normal tt, w')
    /\ connectionStatus (sval (store w'))
       = (if responded_ok (healthCheck api) then "connected" else "disconnected")
    /\ (connectionStatus (sval (store w')) = "connected"
        <-> exists r, healthCheck api = Fulfilled (BodyEnvelope r)
                      /\ truthy (success r) = true)
    /\ (connectionStatus (sval (store w')) = "disconnected"
        <-> responded_ok (healthCheck api) = false)
    /\ with_connectionStatus (connectionStatus (sval (store w))) (sval (store w'))
       = sval (store w)
    /\ (forall e : Error, responded_ok (D := value) (Rejected e) = false)
    /\ responded_ok (D := value) (Fulfilled BodyNull) = false
    /\ (forall (b : bool) (err d : value),
          responded_ok (Fulfilled (BodyEnvelope (mkResponse (VBool b) err d))) = b).
Proof.
  unfold checkConnection.
  destruct (healthCheck api) as [e | [ | r]] eqn:Ho.
  - destruct (setConnectionStatus_sets now "disconnected" w) as (w' & Hrun & Hst & Hfr).
    exists w'. split; [|split; [exact Hst|split; [|split; [|split; [exact Hfr|]]]]].
    + rewrite (try_catch_throw _ _ w e w); [exact Hrun|reflexivity].
    + rewrite Hst. split; [discriminate|]. intros (r & Hr & _). discriminate Hr.
    + rewrite Hst. split; reflexivity.
    + repeat split.
  - destruct (setConnectionStatus_sets now "disconnected" w) as (w' & Hrun & Hst & Hfr).
    exists w'. split; [|split; [exact Hst|split; [|split; [|split; [exact Hfr|]]]]].
    + rewrite (try_catch_throw _ _ w (null_read_error "success") w);
        [exact Hrun|reflexivity].
    + rewrite Hst. split; [discriminate|]. intros (r & Hr & _). discriminate Hr.
    + rewrite Hst. split; reflexivity.
    + repeat split.
  - destruct (setConnectionStatus_sets now
                (if truthy (success r) then "connected" else "disconnected") w)
      as (w' & Hrun & Hst & Hfr).
    exists w'. split; [|split; [exact Hst|split; [|split; [|split; [exact Hfr|]]]]].
    + unfold try_catch. cbv [mbind G_bind await fields_of mret G_ret].
      rewrite Hrun. reflexivity.
    + rewrite Hst. simpl. destruct (truthy (success r)) eqn:E.
      * split; [intros _; exists r; auto|reflexivity].
      * split; [discriminate|]. intros (r' & [= <-] & Hr'). congruence.
    + rewrite Hst. simpl. destruct (truthy (success r)); split;
        try discriminate; reflexivity.
    + repeat split.
Qed.

End ProviderProps.

(** ** Properties of the live-feed session *)

Module StreamProps.
Import ViamVideoPlayer StreamSpec.

Lemma own_property_absent fields k :
  has_own fields k = false -> own_property fields k = JUndefined.
Proof.
  induction fields as [|[k' v] rest IH]; simpl; [reflexivity|].
  destruct (String.eqb k' k); simpl; [discriminate|exact IH].
Qed.

Section OnMessage.

Variable JSON_parse : string -> option jvalue.

(** A payload with a truthy [error] field: only the error cell changes. *)
Lemma onmessage_error ev st fields :
  JSON_parse ev = Some (JObj fields) ->
  truthy (own_property fields "error") = true ->
  onmessage JSON_parse ev st
  = mkSession (isConnected st) (isLoading st) (own_property fields "error")
              (currentImage st) (detections st) (streamUrl st) (cameraInfo st).
Proof.
  intros Hp He. unfold onmessage, try_log.
  cbv [mbind Handler_bind try_eval]. rewrite Hp. simpl. rewrite He. reflexivity.
Qed.

(** A payload whose [error] field is absent or falsy is a frame. *)
Lemma onmessage_frame ev st fields :
  JSON_parse ev = Some (JObj fields) ->
  truthy (own_property fields "error") = false ->
  onmessage JSON_parse ev st
  = mkSession (isConnected st) (isLoading st) JNull
              (own_property fields "image")
              (or_else (own_property fields "detections") (JArr []))
              (streamUrl st) (cameraInfo st).
Proof.
  intros Hp He. unfold onmessage, try_log.
  cbv [mbind Handler_bind try_eval]. rewrite Hp. simpl. rewrite He. reflexivity.
Qed.

(** Text that is not JSON, and the JSON text [null], change nothing. *)
Lemma onmessage_unparsable ev st :
  JSON_parse ev = None \/ JSON_parse ev = Some JNull ->
  onmessage JSON_parse ev st = st.
Proof.
  intros [Hp|Hp]; unfold onmessage, try_log;
    cbv [mbind Handler_bind try_eval]; rewrite Hp; reflexivity.
Qed.

End OnMessage.

(** C5, as the code has it: an event whose payload parses to an object
    with a truthy error field (a non-empty message in particular) sets the
    session's error to that field and leaves the current frame, the
    detections and every other cell as they were; an event whose payload
    parses to an object whose error field is absent or falsy sets the
    current frame to its image field, the detections to its detections
    field ([] when that is absent or falsy) and the error to null; an
    event whose payload does not parse, or parses to null, changes
    nothing. *)
Theorem onmessage_by_payload (JSON_parse : string -> option jvalue) ev st :
  (forall fields,
      JSON_parse ev = Some (JObj fields) ->
      truthy (own_property fields "error") = true ->
      onmessage JSON_parse ev st
      = mkSession (isConnected st) (isLoading st) (own_property fields "error")
                  (currentImage st) (detections st) (streamUrl st) (cameraInfo st))
  /\ (forall fields,
      JSON_parse ev = Some (JObj fields) ->
      truthy (own_property fields "error") = false ->
      onmessage JSON_parse ev st
      = mkSession (isConnected st) (isLoading st) JNull
                  (own_property fields "image")
                  (or_else (own_property fields "detections") (JArr []))
                  (streamUrl st) (cameraInfo st))
  /\ (JSON_parse ev = None \/ JSON_parse ev = Some JNull ->
      onmessage JSON_parse ev st = st)
  /\ (forall msg, truthy (JStr msg) = true <-> msg <> "").
Proof.
  split; [intros fields; apply onmessage_error|].
  split; [intros fields; apply onmessage_frame|].
  split; [apply onmessage_unparsable|].
  intros msg. simpl. destruct (String.eqb_spec msg ""); simpl; split;
    congruence.
Qed.

(** The scenario "decode failure" on a live session, then a fresh frame,
    then a malformed event. *)
Lemma onmessage_by_payload_witness :
  let failure := JObj [("error", JStr "decode failure")] in
  let frame := JObj [("image", JStr "data:image/jpeg;base64,BBBB");
                     ("detections", JArr [])] in
  let st1 := onmessage (parses_to "event-1" failure) "event-1" live_session in
  let st2 := onmessage (parses_to "event-2" frame) "event-2" st1 in
  let st3 := onmessage (parses_to "event-2" frame) "not json" st2 in
  (error st1 = JStr "decode failure"
   /\ currentImage st1 = currentImage live_session
   /\ detections st1 = detections live_session)
  /\ (error st2 = JNull
      /\ currentImage st2 = JStr "data:image/jpeg;base64,BBBB"
      /\ detections st2 = JArr [])
  /\ st3 = st2.
Proof.
  intros failure frame st1 st2 st3.
  destruct (onmessage_by_payload (parses_to "event-1" failure) "event-1" live_session)
    as (Herr & _ & _ & _).
  destruct (onmessage_by_payload (parses_to "event-2" frame) "event-2" st1)
    as (_ & Hframe & _ & _).
  destruct (onmessage_by_payload (parses_to "event-2" frame) "not json" st2)
    as (_ & _ & Hbad & _).
  split; [|split].
  - unfold st1. rewrite (Herr _ eq_refl eq_refl). repeat split.
  - unfold st2. rewrite (Hframe _ eq_refl eq_refl). repeat split.
  - unfold st3. apply Hbad. left. reflexivity.
Defined.

(** C5, refuted as stated: a payload that parses to an error object with
    the empty message is treated as a frame; the last good image is
    replaced by undefined and the error cell ends null. *)
Lemma empty_error_message_drops_frame :
  let payload := JObj [("error", JStr "")] in
  let st := onmessage (parses_to "event-1" payload) "event-1" live_session in
  currentImage live_session = JStr "data:image/jpeg;base64,AAAA"
  /\ currentImage st = JUndefined
  /\ error st = JNull
  /\ detections st = JArr [].
Proof. repeat split. Qed.

(** C10: an event whose payload parses to an object with neither an error
    nor a detections field sets the detections to the empty list (the
    previous ones are dropped), the current frame to the payload's image
    field, and the error to null. *)
Theorem onmessage_without_detections
    (JSON_parse : string -> option jvalue) ev st fields :
  JSON_parse ev = Some (JObj fields) ->
  has_own fields "error" = false ->
  has_own fields "detections" = false ->
  onmessage JSON_parse ev st
  = mkSession (isConnected st) (isLoading st) JNull
              (own_property fields "image") (JArr [])
              (streamUrl st) (cameraInfo st).
Proof.
  intros Hp He Hd.
  rewrite (onmessage_frame JSON_parse ev st fields Hp).
  - rewrite (own_property_absent _ _ Hd). reflexivity.
  - rewrite (own_property_absent _ _ He). reflexivity.
Qed.

Lemma onmessage_without_detections_witness :
  let payload := JObj [("image", JStr "data:image/jpeg;base64,BBBB")] in
  let st := onmessage (parses_to "event-1" payload) "event-1" live_session in
  detections live_session <> JArr []
  /\ detections st = JArr []
  /\ currentImage st = JStr "data:image/jpeg;base64,BBBB"
  /\ error st = JNull.
Proof.
  intros payload st. unfold st.
  rewrite (onmessage_without_detections (parses_to "event-1" payload) "event-1"
             live_session [("image", JStr "data:image/jpeg;base64,BBBB")]
             eq_refl eq_refl eq_refl).
  split; [discriminate|]. repeat split.
Defined.

End StreamProps.

(** ** Further properties of the reducer *)

Module ReducerProps.
Import Store StoreSpec StoreProps.

(** Case analysis on a run of the reducer: one goal per case of the
    [switch] that returns, with the resulting snapshot substituted. *)
Ltac reducer_inversion Hrun :=
  unfold surveillanceReducer in Hrun;
  repeat case_decide;
  try match type of Hrun with
      | context [payload ?a] => destruct (payload a) eqn:?
      end;
  try discriminate Hrun;
  cbv [mbind M_bind alloc mret M_ret] in Hrun;
  try match type of Hrun with
      | context [merge_by_id ?p ?l ?m] =>
          let l' := fresh "l'" in
          let n2 := fresh "n2" in
          let Hm := fresh "Hm" in
          let Hlen := fresh "Hlen" in
          let Hidx := fresh "Hidx" in
          destruct (merge_by_id_spec p l m) as (l' & n2 & Hm & Hlen & _ & Hidx);
          rewrite Hm in Hrun
      end;
  injection Hrun as <- <-.

(** X1: each field of the state is written by its own commands only.
    The error map changes only under SET_ERROR and CLEAR_ERROR; lastUpdate
    only under SET_OVERVIEW; connectionStatus only under
    SET_CONNECTION_STATUS; the overview (and with it active_alarms_count)
    only under SET_OVERVIEW and ADD_ALARM; each collection only under its
    own SET_ and UPDATE_ commands (and ADD_ALARM for alarms); the loading
    flags only under SET_LOADING, SET_ERROR and the four SET_ data
    commands. *)
Theorem reducer_writes_only_own_fields now snap a n snap' n' :
  surveillanceReducer now snap a n = Some (snap', n') ->
  (type a <> actionTypes.SET_ERROR -> type a <> actionTypes.CLEAR_ERROR ->
     errors (sval snap') = errors (sval snap))
  /\ (type a <> actionTypes.SET_OVERVIEW ->
     lastUpdate (sval snap') = lastUpdate (sval snap))
  /\ (type a <> actionTypes.SET_CONNECTION_STATUS ->
     connectionStatus (sval snap') = connectionStatus (sval snap))
  /\ (type a <> actionTypes.SET_OVERVIEW -> type a <> actionTypes.ADD_ALARM ->
     overview (sval snap') = overview (sval snap))
  /\ (type a <> actionTypes.SET_TOWERS -> type a <> actionTypes.UPDATE_TOWER ->
     towers (sval snap') = towers (sval snap))
  /\ (type a <> actionTypes.SET_CAMERAS -> type a <> actionTypes.UPDATE_CAMERA ->
     cameras (sval snap') = cameras (sval snap))
  /\ (type a <> actionTypes.SET_ALARMS -> type a <> actionTypes.ADD_ALARM ->
     type a <> actionTypes.UPDATE_ALARM ->
     alarms (sval snap') = alarms (sval snap))
  /\ (type a <> actionTypes.SET_LOADING -> type a <> actionTypes.SET_ERROR ->
     type a <> actionTypes.SET_OVERVIEW -> type a <> actionTypes.SET_TOWERS ->
     type a <> actionTypes.SET_CAMERAS -> type a <> actionTypes.SET_ALARMS ->
     loading (sval snap') = loading (sval snap)).
Proof.
  intros Hrun. reducer_inversion Hrun.
  all: simpl; repeat split; intros; first [reflexivity | contradiction].
Qed.

Lemma reducer_writes_only_own_fields_witness :
  let a7 := mkObj 11%positive {[ "id" := VStr "a7"; "status" := VStr "active" ]} in
  let p := mkObj 12%positive {[ "id" := VStr "a7"; "status" := VStr "resolved" ]} in
  let s := mkSnapshot 1%positive
             (with_errors {[ "alarms" := VStr "db unreachable" ]}
                (with_alarms [a7] initialState)) in
  exists s' n',
    surveillanceReducer "2024-05-01T10:00:00.000Z" s
      (mkAction actionTypes.UPDATE_ALARM (PObject p)) 20%positive = Some (s', n')
    /\ errors (sval s') = errors (sval s)
    /\ overview (sval s') = overview (sval s).
Proof.
  intros a7 p s.
  destruct (reducer_total "2024-05-01T10:00:00.000Z" s
              (mkAction actionTypes.UPDATE_ALARM (PObject p)) 20%positive
              (wt_UpdateAlarm p)) as (s' & n' & Hrun).
  exists s', n'. split; [exact Hrun|].
  destruct (reducer_writes_only_own_fields _ _ _ _ _ _ Hrun)
    as (Herr & _ & _ & Hov & _).
  split; [apply Herr; discriminate | apply Hov; discriminate].
Defined.

(** X2: SET_ERROR(key, e) followed by CLEAR_ERROR(key) leaves the error map
    as it was without its entry for key: exactly as it was when the key had
    no entry before; the loading flag of the key stays false. *)
Theorem set_error_then_clear_error now snap key err n :
  exists snap' n',
    dispatch_all now
      [ mkAction actionTypes.SET_ERROR (PKeyError key err);
        mkAction actionTypes.CLEAR_ERROR (PKey key) ] snap n = Some (snap', n')
    /\ errors (sval snap') = delete key (errors (sval snap))
    /\ (errors (sval snap) !! key = None ->
        errors (sval snap') = errors (sval snap))
    /\ loading (sval snap') !! key = Some (VBool false).
Proof.
  eexists _, _. split.
  - cbn [dispatch_all]. cbv [mbind M_bind]. run_reducer. run_reducer. reflexivity.
  - simpl. split; [apply delete_insert_eq|]. split.
    + intros Hk. apply delete_insert_id, Hk.
    + apply lookup_insert_eq.
Qed.

Lemma set_error_then_clear_error_witness :
  exists snap' n',
    dispatch_all "2024-05-01T10:00:00.000Z"
      [ mkAction actionTypes.SET_ERROR (PKeyError "cameras" (VStr "timeout"));
        mkAction actionTypes.CLEAR_ERROR (PKey "cameras") ]
      (mkSnapshot 1%positive initialState) 2%positive = Some (snap', n')
    /\ errors (sval snap') = errors initialState.
Proof.
  destruct (set_error_then_clear_error "2024-05-01T10:00:00.000Z"
              (mkSnapshot 1%positive initialState) "cameras" (VStr "timeout")
              2%positive) as (snap' & n' & Hrun & _ & Hsame & _).
  exists snap', n'. split; [exact Hrun|]. apply Hsame. reflexivity.
Defined.

(** X3: no command removes a loading flag: a key that has a flag keeps one
    after every step; so in every state reachable from the initial one the
    four flags overview, towers, cameras and alarms are defined. *)
Theorem loading_flags_persist :
  (forall now snap a n snap' n' k,
      surveillanceReducer now snap a n = Some (snap', n') ->
      is_Some (loading (sval snap) !! k) ->
      is_Some (loading (sval snap') !! k))
  /\ (forall snap n k,
        reachable snap n ->
        k ∈ ["overview"; "towers"; "cameras"; "alarms"] ->
        is_Some (loading (sval snap) !! k)).
Proof.
  assert (Hstep : forall now snap a n snap' n' k,
             surveillanceReducer now snap a n = Some (snap', n') ->
             is_Some (loading (sval snap) !! k) ->
             is_Some (loading (sval snap') !! k)).
  { intros now snap a n snap' n' k Hrun Hk. reducer_inversion Hrun.
    all: simpl; try exact Hk.
    all: apply lookup_insert_is_Some'; right; exact Hk. }
  split; [exact Hstep|].
  intros snap n k Hreach Hin.
  induction Hreach as [a n | now snap n action snap' n' _ IH _ Hrun].
  - simpl.
    repeat (apply elem_of_cons in Hin; destruct Hin as [->|Hin];
            [eexists; reflexivity|]).
    apply elem_of_nil in Hin. contradiction.
  - exact (Hstep _ _ _ _ _ _ _ Hrun IH).
Qed.

Lemma loading_flags_persist_witness :
  exists snap n v,
    dispatch_all "2024-05-01T10:00:00.000Z"
      [ mkAction actionTypes.SET_LOADING (PKeyValue "statistics" (VBool true));
        mkAction actionTypes.SET_TOWERS (PList []) ]
      (mkSnapshot 1%positive initialState) 2%positive = Some (snap, n)
    /\ loading (sval snap) !! "cameras" = Some v.
Proof.
  destruct loading_flags_persist as (_ & Hreach).
  pose (a1 := mkAction actionTypes.SET_LOADING (PKeyValue "statistics" (VBool true))).
  pose (a2 := mkAction actionTypes.SET_TOWERS (PList [])).
  destruct (reducer_total "2024-05-01T10:00:00.000Z"
              (mkSnapshot 1%positive initialState) a1 2%positive
              (wt_SetLoading _ _)) as (s1 & n1 & H1).
  destruct (reducer_total "2024-05-01T10:00:00.000Z" s1 a2 n1 (wt_SetTowers _))
    as (s2 & n2 & H2).
  destruct (Hreach s2 n2 "cameras") as [v Hv].
  - eapply (reachable_step _ _ s1 n1 a2); [|exact I|exact H2].
    eapply (reachable_step _ _ _ 2%positive a1); [|exact I|exact H1].
    apply reachable_init.
  - set_solver.
  - exists s2, n2, v. split; [|exact Hv].
    cbn [dispatch_all]. cbv [mbind M_bind]. fold a1. rewrite H1. fold a2.
    rewrite H2. reflexivity.
Defined.

(** What [map] does to a collection, read off its result. *)
Lemma merge_by_id_targets p l n l' n' :
  merge_by_id p l n = Some (l', n') ->
  length l' = length l
  /\ (forall i x, l !! i = Some x -> get x "id" <> get p "id" -> l' !! i = Some x)
  /\ (forall i x, l !! i = Some x -> get x "id" = get p "id" ->
        exists y, l' !! i = Some y /\ props y = spread2 (props x) (props p))
  /\ ((forall x, x ∈ l -> get x "id" <> get p "id") -> l' = l).
Proof.
  intros Hm.
  destruct (merge_by_id_spec p l n) as (l2 & n2 & Hm2 & Hlen & _ & Hidx).
  rewrite Hm in Hm2. injection Hm2 as <- <-.
  split; [exact Hlen|]. split; [|split].
  - intros i x Hi Hne. specialize (Hidx i x Hi).
    destruct (strict_eq (get x "id") (get p "id")) eqn:E; [|exact Hidx].
    apply strict_eq_true in E. contradiction.
  - intros i x Hi Heq. specialize (Hidx i x Hi).
    apply strict_eq_true in Heq. rewrite Heq in Hidx.
    destruct Hidx as (a & Ha & _). eexists. split; [exact Ha|reflexivity].
  - intros Hno. rewrite (merge_by_id_no_match p l n Hno) in Hm. congruence.
Qed.



(** A merged copy carries the payload's id. *)
Lemma merged_keeps_id (x p : Obj) (a : loc) :
  strict_eq (get x "id") (get p "id") = true ->
  get (mkObj a (spread2 (props x) (props p))) "id" = get p "id".
Proof.
  intros E. apply strict_eq_true in E. unfold get in *. simpl.
  unfold spread2. rewrite lookup_union.
  destruct (props p !! "id"), (props x !! "id"); simpl in *; congruence.
Qed.

Lemma spread2_twice (a b : gmap string value) :
  spread2 (spread2 a b) b = spread2 a b.
Proof.
  unfold spread2. rewrite (assoc_L (∪)). rewrite (idemp_L (∪)). reflexivity.
Qed.

Lemma merge_by_id_twice p l : forall n l1 n1 m l2 n2,
  merge_by_id p l n = Some (l1, n1) ->
  merge_by_id p l1 m = Some (l2, n2) ->
  props <$> l2 = props <$> l1.
Proof.
  induction l as [|y l IH]; intros n l1 n1 m l2 n2 H1 H2.
  - rewrite merge_by_id_nil in H1. injection H1 as <- <-.
    rewrite merge_by_id_nil in H2. injection H2 as <- <-. reflexivity.
  - rewrite merge_by_id_cons in H1.
    destruct (strict_eq (get y "id") (get p "id")) eqn:E.
    + destruct (merge_by_id p l (Pos.succ n)) as [[l1' n1']|] eqn:Hl;
        [|discriminate]. injection H1 as <- <-.
      rewrite merge_by_id_cons in H2. rewrite (merged_keeps_id y p n E) in H2.
      replace (strict_eq (get p "id") (get p "id")) with true in H2
        by (symmetry; apply strict_eq_true; reflexivity).
      destruct (merge_by_id p l1' (Pos.succ m)) as [[l2' n2']|] eqn:Hl2;
        [|discriminate]. injection H2 as <- <-.
      simpl. rewrite spread2_twice. f_equal.
      exact (IH _ _ _ _ _ _ Hl Hl2).
    + destruct (merge_by_id p l n) as [[l1' n1']|] eqn:Hl; [|discriminate].
      injection H1 as <- <-.
      rewrite merge_by_id_cons in H2. rewrite E in H2.
      destruct (merge_by_id p l1' m) as [[l2' n2']|] eqn:Hl2; [|discriminate].
      injection H2 as <- <-. simpl. f_equal.
      exact (IH _ _ _ _ _ _ Hl Hl2).
Qed.

(** X5: dispatching the same UPDATE_ALARM(P) a second time changes no
    alarm's properties: after the second application every alarm holds
    the same property table as after the first (the merged entries are
    new objects again). *)
Theorem update_alarm_twice_same_properties now1 now2 (s : Snapshot) (p : Obj) (n : loc) :
  exists s1 n1 s2 n2,
    surveillanceReducer now1 s (mkAction actionTypes.UPDATE_ALARM (PObject p)) n
      = Some (s1, n1)
    /\ surveillanceReducer now2 s1 (mkAction actionTypes.UPDATE_ALARM (PObject p)) n1
      = Some (s2, n2)
    /\ props <$> alarms (sval s2) = props <$> alarms (sval s1)
    /\ with_alarms (alarms (sval s1)) (sval s2) = sval s1.
Proof.
  destruct (merge_by_id p (alarms (sval s)) (Pos.succ n)) as [[l1 m1]|] eqn:Hm1;
    [|destruct (merge_by_id_spec p (alarms (sval s)) (Pos.succ n))
        as (? & ? & Hm' & _); congruence].
  destruct (merge_by_id p l1 (Pos.succ m1)) as [[l2 m2]|] eqn:Hm2;
    [|destruct (merge_by_id_spec p l1 (Pos.succ m1))
        as (? & ? & Hm' & _); congruence].
  exists (mkSnapshot n (with_alarms l1 (sval s))), m1,
         (mkSnapshot m1 (with_alarms l2 (with_alarms l1 (sval s)))), m2.
  split; [run_reducer; rewrite Hm1; reflexivity|].
  split; [run_reducer; simpl; rewrite Hm2; reflexivity|].
  simpl. split; [exact (merge_by_id_twice _ _ _ _ _ _ _ _ Hm1 Hm2)|reflexivity].
Qed.

End ReducerProps.

(** ** Further properties of the provider *)

Module FetchProps.
Import Store surveillanceAPI SurveillanceProvider ProviderSpec.
Import ProviderReads ProviderReadsSpec StoreProps.

(** Resolving a dispatch of a known action inside provider code. *)
Ltac run_dispatch :=
  cbv [setLoading setError setConnectionStatus dispatch];
  run_reducer.

(** Running a fetch: the flag is raised, the call settles, and one of the
    two branches dispatches. *)
Ltac run_fetch o :=
  cbv [mbind G_bind]; run_dispatch;
  cbv [try_catch mbind G_bind await fields_of throw mret G_ret];
  destruct o as [e | [ | r]]; simpl;
  try (destruct (truthy (success r)) eqn:Hok; simpl);
  run_dispatch; cbn [store heap_next sval];
  eexists; (split; [reflexivity|]); simpl.

Lemma fetchTowers_settles now (api : Client) (w : World) :
  exists w',
    fetchTowers now api w = Some (Normal tt, w')
    /\ loading (sval (store w')) !! "towers" = Some (VBool false)
    /\ (if responded_ok (getTowers api)
        then (exists r, getTowers api = Fulfilled (BodyEnvelope r)
                        /\ towers (sval (store w')) = data r)
             /\ errors (sval (store w')) = errors (sval (store w))
        else towers (sval (store w')) = towers (sval (store w))
             /\ errors (sval (store w'))
                = <["towers" := fetch_failure_text "Failed to fetch towers"
                                  (getTowers api)]> (errors (sval (store w))))
    /\ cameras (sval (store w')) = cameras (sval (store w))
    /\ alarms (sval (store w')) = alarms (sval (store w))
    /\ overview (sval (store w')) = overview (sval (store w)).
Proof.
  unfold fetchTowers. run_fetch (getTowers api).
  all: try rewrite Hok.
  all: split; [apply lookup_insert_eq|]; eauto 10.
Qed.

Lemma fetchCameras_settles now (api : Client) (towerId : value) (w : World) :
  exists w',
    fetchCameras now api towerId w = Some (Normal tt, w')
    /\ loading (sval (store w')) !! "cameras" = Some (VBool false)
    /\ (if responded_ok (getCameras api towerId)
        then (exists r, getCameras api towerId = Fulfilled (BodyEnvelope r)
                        /\ cameras (sval (store w')) = data r)
             /\ errors (sval (store w')) = errors (sval (store w))
        else cameras (sval (store w')) = cameras (sval (store w))
             /\ errors (sval (store w'))
                = <["cameras" := fetch_failure_text "Failed to fetch cameras"
                                   (getCameras api towerId)]>
                    (errors (sval (store w))))
    /\ towers (sval (store w')) = towers (sval (store w))
    /\ alarms (sval (store w')) = alarms (sval (store w))
    /\ overview (sval (store w')) = overview (sval (store w)).
Proof.
  unfold fetchCameras. run_fetch (getCameras api towerId).
  all: try rewrite Hok.
  all: split; [apply lookup_insert_eq|]; eauto 10.
Qed.


(** X7: fetchOverview and fetchAlarms never throw and always leave their
    loading flag false.  A truthy success replaces the overview (stamping
    lastUpdate with the current time) or the alarm list and leaves the
    error map as it was; anything else leaves overview, lastUpdate and the
    alarm list as they were and stores the failure text under the key. *)
Theorem fetch_overview_alarms_settle now (reads : Reads) (w : World) :
  (exists w',
      fetchOverview now reads w = Some (Normal tt, w')
      /\ loading (sval (store w')) !! "overview" = Some (VBool false)
      /\ (if responded_ok (getDashboardOverview reads)
          then (exists r, getDashboardOverview reads = Fulfilled (BodyEnvelope r)
                          /\ overview (sval (store w')) = data r)
               /\ lastUpdate (sval (store w')) = Some now
               /\ errors (sval (store w')) = errors (sval (store w))
          else overview (sval (store w')) = overview (sval (store w))
               /\ lastUpdate (sval (store w')) = lastUpdate (sval (store w))
               /\ errors (sval (store w'))
                  = <["overview" := fetch_failure_text "Failed to fetch overview"
                                      (getDashboardOverview reads)]>
                      (errors (sval (store w))))
      /\ alarms (sval (store w')) = alarms (sval (store w)))
  /\ (forall filters, exists w',
      fetchAlarms now reads filters w = Some (Normal tt, w')
      /\ loading (sval (store w')) !! "alarms" = Some (VBool false)
      /\ (if responded_ok (getAlarms reads filters)
          then (exists r, getAlarms reads filters = Fulfilled (BodyEnvelope r)
                          /\ alarms (sval (store w')) = data r)
               /\ errors (sval (store w')) = errors (sval (store w))
          else alarms (sval (store w')) = alarms (sval (store w))
               /\ errors (sval (store w'))
                  = <["alarms" := fetch_failure_text "Failed to fetch alarms"
                                    (getAlarms reads filters)]>
                      (errors (sval (store w))))
      /\ overview (sval (store w')) = overview (sval (store w))
      /\ lastUpdate (sval (store w')) = lastUpdate (sval (store w))).
Proof.
  split; [|intros filters].
  - unfold fetchOverview. run_fetch (getDashboardOverview reads).
    all: try rewrite Hok.
    all: split; [apply lookup_insert_eq|]; eauto 10.
  - unfold fetchAlarms. run_fetch (getAlarms reads filters).
    all: try rewrite Hok.
    all: split; [apply lookup_insert_eq|]; eauto 10.
Qed.

(** X8: when the creation call comes back with a truthy success,
    createTower and createCamera return that response to the caller
    whatever the refetch does: the store ends as fetchTowers /
    fetchCameras leave it, so a failed refetch is recorded in the error
    map while the creation itself is reported as a success. *)
Theorem create_returns_after_refetch
    now (api : Client) (object_to_string : loc -> string) (entity : Obj) (w : World) :
  (responded_ok (surveillanceAPI.createTower api entity) = true ->
   exists body w',
     surveillanceAPI.createTower api entity = Fulfilled body
     /\ SurveillanceProvider.createTower now api object_to_string entity w
        = Some (Normal body, w')
     /\ fetchTowers now api w = Some (Normal tt, w')
     /\ loading (sval (store w')) !! "towers" = Some (VBool false)
     /\ (responded_ok (getTowers api) = false ->
         towers (sval (store w')) = towers (sval (store w))
         /\ errors (sval (store w')) !! "towers"
            = Some (fetch_failure_text "Failed to fetch towers" (getTowers api))))
  /\ (responded_ok (surveillanceAPI.createCamera api entity) = true ->
   exists body w',
     surveillanceAPI.createCamera api entity = Fulfilled body
     /\ SurveillanceProvider.createCamera now api object_to_string entity w
        = Some (Normal body, w')
     /\ fetchCameras now api VNull w = Some (Normal tt, w')
     /\ loading (sval (store w')) !! "cameras" = Some (VBool false)
     /\ (responded_ok (getCameras api VNull) = false ->
         cameras (sval (store w')) = cameras (sval (store w))
         /\ errors (sval (store w')) !! "cameras"
            = Some (fetch_failure_text "Failed to fetch cameras"
                      (getCameras api VNull)))).
Proof.
  split; intros Hok.
  - destruct (surveillanceAPI.createTower api entity) as [e | [ | r]] eqn:Ho;
      simpl in Hok; try discriminate.
    destruct (fetchTowers_settles now api w) as (w' & Hrun & Hl & Hres & _).
    exists (BodyEnvelope r), w'. split; [reflexivity|]. split.
    + unfold SurveillanceProvider.createTower. rewrite Ho.
      cbv [try_catch mbind G_bind await fields_of mret G_ret].
      rewrite Hok, Hrun. reflexivity.
    + split; [exact Hrun|]. split; [exact Hl|].
      intros Hfail. rewrite Hfail in Hres. destruct Hres as (Ht & He).
      split; [exact Ht|]. rewrite He. apply lookup_insert_eq.
  - destruct (surveillanceAPI.createCamera api entity) as [e | [ | r]] eqn:Ho;
      simpl in Hok; try discriminate.
    destruct (fetchCameras_settles now api VNull w) as (w' & Hrun & Hl & Hres & _).
    exists (BodyEnvelope r), w'. split; [reflexivity|]. split.
    + unfold SurveillanceProvider.createCamera. rewrite Ho.
      cbv [try_catch mbind G_bind await fields_of mret G_ret].
      rewrite Hok, Hrun. reflexivity.
    + split; [exact Hrun|]. split; [exact Hl|].
      intros Hfail. rewrite Hfail in Hres. destruct Hres as (Ht & He).
      split; [exact Ht|]. rewrite He. apply lookup_insert_eq.
Qed.

Lemma create_returns_after_refetch_witness :
  let ots := fun _ : loc => "[object Object]" in
  let tower := mkObj 5%positive {[ "name" := VStr "North gate" ]} in
  exists body w',
    SurveillanceProvider.createTower "2024-05-01T10:00:00.000Z"
      write_only_client ots tower initialWorld = Some (Normal body, w')
    /\ errors (sval (store w')) !! "towers" = Some (VStr "Failed to fetch").
Proof.
  intros ots tower.
  destruct (create_returns_after_refetch "2024-05-01T10:00:00.000Z"
              write_only_client ots tower initialWorld) as (Hcreate & _).
  destruct (Hcreate eq_refl) as (body & w' & _ & Hrun & _ & _ & Hfail).
  exists body, w'. split; [exact Hrun|].
  destruct (Hfail eq_refl) as (_ & He). exact He.
Defined.

(** The payload [{ id, status }] merged into a list of alarms. *)
Lemma status_merge (status : string) (id : value) (a : loc) l n l' n' :
  merge_by_id (mkObj a {[ "id" := id; "status" := VStr status ]}) l n
    = Some (l', n') ->
  length l' = length l
  /\ (forall i x, l !! i = Some x ->
        (get x "id" <> id -> l' !! i = Some x)
        /\ (get x "id" = id ->
            exists y, l' !! i = Some y
                      /\ get y "status" = VStr status
                      /\ get y "id" = id
                      /\ forall k, k <> "id" -> k <> "status" ->
                                   props y !! k = props x !! k)).
Proof.
  intros Hm.
  destruct (ReducerProps.merge_by_id_targets _ _ _ _ _ Hm) as (Hlen & Hne & Heq & _).
  assert (Hid : get (mkObj a {[ "id" := id; "status" := VStr status ]}) "id" = id).
  { unfold get. simpl. rewrite lookup_insert_eq. reflexivity. }
  rewrite Hid in Hne, Heq.
  split; [exact Hlen|]. intros i x Hi. split; [apply Hne, Hi|].
  intros Hx. destruct (Heq i x Hi Hx) as (y & Hy & Hprops).
  exists y. split; [exact Hy|]. unfold get. rewrite Hprops. simpl.
  unfold spread2. split; [|split].
  - rewrite (lookup_union_Some_l _ _ _ (VStr status)); [reflexivity|].
    rewrite lookup_insert_ne by discriminate. apply lookup_singleton_eq.
  - rewrite (lookup_union_Some_l _ _ _ id); [reflexivity|].
    apply lookup_insert_eq.
  - intros k Hk1 Hk2. apply lookup_union_r.
    rewrite lookup_insert_ne by congruence.
    apply lookup_singleton_ne. congruence.
Qed.

(** Running acknowledgeAlarm / resolveAlarm after a successful call. *)
Ltac run_transition Ho Hok :=
  rewrite Ho;
  cbv [try_catch mbind G_bind await fields_of mret G_ret lift new_object
       M_bind alloc M_ret];
  rewrite Hok; cbn [heap_next store];
  cbv [dispatch]; run_reducer; cbn [heap_next store sval].

(** X9: when the call comes back with a truthy success, acknowledgeAlarm
    and resolveAlarm return the response and set the status of every alarm
    with that id to "acknowledged" / "resolved", whatever status it had;
    the alarm's other properties are kept, every other alarm is the same
    object as before, and the rest of the store (the overview with its
    active_alarms_count, the error map, the flags) is unchanged. *)
Theorem alarm_transition_success
    now (api : Client) (object_to_string : loc -> string) (alarmId : value) (w : World) :
  (responded_ok (surveillanceAPI.acknowledgeAlarm api alarmId) = true ->
   exists body w',
     surveillanceAPI.acknowledgeAlarm api alarmId = Fulfilled body
     /\ SurveillanceProvider.acknowledgeAlarm now api object_to_string alarmId w
        = Some (Normal body, w')
     /\ transitioned "acknowledged" alarmId (sval (store w)) (sval (store w')))
  /\ (responded_ok (surveillanceAPI.resolveAlarm api alarmId) = true ->
   exists body w',
     surveillanceAPI.resolveAlarm api alarmId = Fulfilled body
     /\ SurveillanceProvider.resolveAlarm now api object_to_string alarmId w
        = Some (Normal body, w')
     /\ transitioned "resolved" alarmId (sval (store w)) (sval (store w'))).
Proof.
  split; intros Hok.
  - destruct (surveillanceAPI.acknowledgeAlarm api alarmId) as [e | [ | r]] eqn:Ho;
      simpl in Hok; try discriminate.
    unfold SurveillanceProvider.acknowledgeAlarm. run_transition Ho Hok.
    match goal with
    | |- context [merge_by_id ?p ?l ?m] =>
        destruct (merge_by_id p l m) as [[l' n2]|] eqn:Hm;
        [|destruct (merge_by_id_spec p l m) as (? & ? & Hm' & _); congruence]
    end.
    destruct (status_merge _ _ _ _ _ _ _ Hm) as (Hlen & Hidx).
    eexists _, _. split; [reflexivity|]. split; [reflexivity|].
    split; [exact Hlen|]. split; [exact Hidx|].
    simpl. destruct (sval (store w)). reflexivity.
  - destruct (surveillanceAPI.resolveAlarm api alarmId) as [e | [ | r]] eqn:Ho;
      simpl in Hok; try discriminate.
    unfold SurveillanceProvider.resolveAlarm. run_transition Ho Hok.
    match goal with
    | |- context [merge_by_id ?p ?l ?m] =>
        destruct (merge_by_id p l m) as [[l' n2]|] eqn:Hm;
        [|destruct (merge_by_id_spec p l m) as (? & ? & Hm' & _); congruence]
    end.
    destruct (status_merge _ _ _ _ _ _ _ Hm) as (Hlen & Hidx).
    eexists _, _. split; [reflexivity|]. split; [reflexivity|].
    split; [exact Hlen|]. split; [exact Hidx|].
    simpl. destruct (sval (store w)). reflexivity.
Qed.

Lemma alarm_transition_success_witness :
  let ots := fun _ : loc => "[object Object]" in
  exists body w' y,
    SurveillanceProvider.acknowledgeAlarm "2024-05-01T10:00:00.000Z"
      write_only_client ots (VStr "a7") two_alarm_world = Some (Normal body, w')
    /\ alarms (sval (store w')) !! 0%nat
       = alarms (sval (store two_alarm_world)) !! 0%nat
    /\ alarms (sval (store w')) !! 1%nat = Some y
    /\ get y "status" = VStr "acknowledged"
    /\ get y "camera" = VStr "cam-5".
Proof.
  intros ots.
  destruct (alarm_transition_success "2024-05-01T10:00:00.000Z"
              write_only_client ots (VStr "a7") two_alarm_world) as (Hack & _).
  destruct (Hack eq_refl) as (body & w' & _ & Hrun & _ & Hidx & _).
  destruct (Hidx 0%nat _ eq_refl) as (Hother & _).
  destruct (Hidx 1%nat _ eq_refl) as (_ & Hsame).
  destruct (Hsame eq_refl) as (y & Hy & Hst & _ & Hrest).
  exists body, w', y. split; [exact Hrun|].
  split; [apply Hother; vm_compute; discriminate|].
  split; [exact Hy|]. split; [exact Hst|].
  unfold get. rewrite (Hrest "camera") by discriminate. reflexivity.
Defined.



End FetchProps.

(** ** Properties of the backend client *)

Module RequestProps.
Import Store surveillanceAPI SurveillanceProvider ProviderSpec SurveillanceAPI.
Import StoreProps.

(** X11: [request] fulfils exactly when the fetch came back with an ok
    status and a body that parsed, and then with that body.  A non-ok
    response is always rejected: with the parser's error when the body is
    not JSON, with the envelope's error text when it has a non-empty one,
    and with "HTTP error! status: <code>" when the envelope has none. *)
Theorem request_fulfils_only_ok {D} (object_to_string : loc -> string) :
  (forall (f : FetchResult D) (b : Body D),
      request object_to_string f = Fulfilled b
      <-> exists status, f = Responded true status (inr b))
  /\ (forall status (j : Error + Body D), exists e,
        request object_to_string (Responded false status j) = Rejected e)
  /\ (forall ok status (e : Error),
        request (D := D) object_to_string (Responded ok status (inl e)) = Rejected e)
  /\ (forall status (text : string) (suc : value) (d : D),
        request object_to_string
          (Responded false status
             (inr (BodyEnvelope (mkResponse suc (VStr text) d))))
        = Rejected (mkError (if String.eqb text ""
                             then "HTTP error! status: " +:+ pretty status
                             else text)))
  /\ (forall status (suc : value) (d : D),
        request object_to_string
          (Responded false status
             (inr (BodyEnvelope (mkResponse suc VUndefined d))))
        = Rejected (mkError ("HTTP error! status: " +:+ pretty status))).
Proof.
  split; [|split; [|split; [|split]]].
  - intros f b. split.
    + destruct f as [e | ok status [e | body]]; simpl; try discriminate.
      destruct ok; simpl.
      * intros [= ->]. eauto.
      * destruct body; discriminate.
    + intros (status & ->). reflexivity.
  - intros status [e | [ | r]]; simpl; eauto.
  - reflexivity.
  - intros status text suc d. simpl. unfold or_else. simpl.
    destruct (String.eqb text ""); reflexivity.
  - reflexivity.
Qed.

Lemma checkConnection_status now (api : Client) (w : World) :
  exists w',
    checkConnection now api w = Some (Normal tt, w')
    /\ connectionStatus (sval (store w'))
       = (if responded_ok (healthCheck api) then "connected" else "disconnected").
Proof.
  unfold checkConnection.
  cbv [try_catch mbind G_bind await fields_of throw mret G_ret].
  destruct (healthCheck api) as [e | [ | r]]; simpl;
    try (destruct (truthy (success r)));
    cbv [setConnectionStatus dispatch]; run_reducer;
    eexists; split; reflexivity.
Qed.

Lemma responded_ok_request {D} ots (f : FetchResult D) :
  responded_ok (request ots f) = true
  <-> exists status r, f = Responded true status (inr (BodyEnvelope r))
                       /\ truthy (success r) = true.
Proof.
  split.
  - destruct f as [e | ok status [e | body]]; simpl; try discriminate.
    destruct ok; simpl.
    + destruct body as [ | r]; simpl; [discriminate|]. eauto.
    + destruct body; discriminate.
  - intros (status & r & -> & Hr). exact Hr.
Qed.

(** X12: the health probe end to end.  With healthCheck issued through
    [request], connectionStatus ends 'connected' exactly when the fetch
    came back with an ok HTTP status and a JSON envelope whose success
    holds; a network failure, a non-2xx status, a body that is not JSON, a
    null body and success:false all end 'disconnected'. *)
Theorem health_probe_over_http
    now (api : Client) (object_to_string : loc -> string)
    (f : FetchResult value) (w : World) :
  healthCheck api = request object_to_string f ->
  exists w',
    checkConnection now api w = Some (Normal tt, w')
    /\ (connectionStatus (sval (store w')) = "connected"
        <-> exists status r, f = Responded true status (inr (BodyEnvelope r))
                             /\ truthy (success r) = true)
    /\ (connectionStatus (sval (store w')) = "connected"
        \/ connectionStatus (sval (store w')) = "disconnected").
Proof.
  intros Hf.
  destruct (checkConnection_status now api w) as (w' & Hrun & Hst).
  exists w'. split; [exact Hrun|]. rewrite Hst, Hf.
  pose proof (responded_ok_request object_to_string f) as Hiff.
  destruct (responded_ok (request object_to_string f)).
  - split; [|left; reflexivity]. split; [intros _; apply Hiff; reflexivity|reflexivity].
  - split; [|right; reflexivity].
    split; [discriminate|]. intros H. apply Hiff in H. discriminate.
Qed.

(** A gateway answering 502 with an HTML page, and a healthy backend. *)
Lemma health_probe_over_http_witness :
  let ots := fun _ : loc => "[object Object]" in
  let html := Responded false 502
                (inl (mkError "Unexpected token '<' is not valid JSON")) in
  let fine := Responded true 200
                (inr (BodyEnvelope (mkResponse (VBool true) VUndefined VUndefined))) in
  (exists w',
      checkConnection "2024-05-01T10:00:00.000Z"
        (ProviderReadsSpec.probe_client ots html) initialWorld = Some (Normal tt, w')
      /\ connectionStatus (sval (store w')) = "disconnected")
  /\ (exists w',
      checkConnection "2024-05-01T10:00:00.000Z"
        (ProviderReadsSpec.probe_client ots fine) initialWorld = Some (Normal tt, w')
      /\ connectionStatus (sval (store w')) = "connected").
Proof.
  intros ots html fine. split.
  - destruct (health_probe_over_http "2024-05-01T10:00:00.000Z"
                (ProviderReadsSpec.probe_client ots html) ots html initialWorld eq_refl)
      as (w' & Hrun & Hiff & [Hc|Hd]).
    + apply Hiff in Hc. destruct Hc as (? & ? & Hc & _). discriminate Hc.
    + exists w'. split; [exact Hrun|exact Hd].
  - destruct (health_probe_over_http "2024-05-01T10:00:00.000Z"
                (ProviderReadsSpec.probe_client ots fine) ots fine initialWorld eq_refl)
      as (w' & Hrun & Hiff & _).
    exists w'. split; [exact Hrun|]. apply Hiff. eexists _, _.
    split; reflexivity.
Defined.


End RequestProps.

(** ** Properties of the authentication layer *)

Module AuthProps.
Import Auth.

Lemma or_else_text_truthy (a : value) (s : string) :
  s <> "" -> truthy (or_else a (VStr s)) = true.
Proof.
  intros Hs. unfold or_else. destruct (truthy a) eqn:E; [exact E|]. simpl.
  destruct (String.eqb_spec s ""); [contradiction|reflexivity].
Qed.

Lemma formatError_truthy (e : appwrite.Exception) :
  truthy (authService.formatError e) = true.
Proof.
  unfold authService.formatError.
  repeat match goal with
         | |- context [if ?b then _ else _] => destruct b
         end;
    first [reflexivity | apply or_else_text_truthy; discriminate].
Qed.

(** Unfolding auth code down to the settled calls. *)
Ltac run_auth :=
  cbv [AuthProvider.init AuthProvider.login AuthProvider.register
       AuthProvider.logout AuthProvider.updateProfile
       AuthProvider.changePassword AuthProvider.sendPasswordRecovery
       AuthProvider.sendEmailVerification
       authService.login authService.register authService.logout
       authService.updateProfile authService.changePassword
       authService.sendPasswordRecovery authService.sendEmailVerification
       authService.getCurrentUser
       try_finally try_catch mbind A_bind await mret A_ret throw
       setError setIsLoading setUser set_currentUser set_isAuthenticated
       success_result failure_result];
  cbn [fst snd context service user isLoading error currentUser
       isAuthenticated success r_user r_error negb].

(** X14: authService.formatError never returns an empty text, and for the
    numeric codes 401, 409 and 429 it returns a fixed text whatever message
    the identity provider sent. *)
Theorem auth_formatError_texts (e : appwrite.Exception) :
  truthy (authService.formatError e) = true
  /\ (forall msg, authService.formatError (appwrite.mkException (VNum 401) msg)
        = VStr "Invalid credentials. Please check your email and password.")
  /\ (forall msg, authService.formatError (appwrite.mkException (VNum 409) msg)
        = VStr "An account with this email already exists.")
  /\ (forall msg, authService.formatError (appwrite.mkException (VNum 429) msg)
        = VStr "Too many requests. Please try again later.")
  /\ (forall code text, text <> "" ->
        code <> VNum 401 -> code <> VNum 409 -> code <> VNum 429 ->
        authService.formatError (appwrite.mkException code (VStr text)) = VStr text).
Proof.
  split; [apply formatError_truthy|]. repeat split.
  intros code text Ht H1 H2 H3. unfold authService.formatError. simpl.
  assert (Hor : or_else (VStr text) (VStr "Invalid request. Please check your input.")
                = VStr text
                /\ or_else (VStr text) (VStr "An unexpected error occurred.")
                   = VStr text).
  { unfold or_else. simpl. destruct (String.eqb_spec text ""); [contradiction|].
    split; reflexivity. }
  destruct Hor as (Ha & Hb).
  destruct (strict_eq code (VNum 401)) eqn:E1;
    [apply StoreProps.strict_eq_true in E1; contradiction|].
  destruct (strict_eq code (VNum 409)) eqn:E2;
    [apply StoreProps.strict_eq_true in E2; contradiction|].
  destruct (strict_eq code (VNum 429)) eqn:E3;
    [apply StoreProps.strict_eq_true in E3; contradiction|].
  rewrite Ha, Hb. destruct (truthy code), (strict_eq code (VNum 400)); reflexivity.
Qed.

(** X15: authService.login never throws.  It reports success exactly when
    both the session creation and the following account.get resolved, and
    then holds that user with isAuthenticated true; otherwise the service's
    fields are left as they were and the result carries a non-empty error
    text ("No active session" when the session was created but the user
    could not be read). *)
Theorem service_login_outcome account email password (w : World) :
  exists res w',
    authService.login account email password w = (inr res, w')
    /\ context w' = context w
    /\ match appwrite.createEmailPasswordSession account email password,
             appwrite.get account with
       | appwrite.Resolves session, appwrite.Resolves u =>
           res = success_result u VUndefined session
           /\ service w' = mkService u true
       | appwrite.Resolves _, appwrite.Rejects _ =>
           res = failure_result (VStr "No active session")
           /\ service w' = service w
       | appwrite.Rejects e, _ =>
           res = failure_result (authService.formatError e)
           /\ truthy (r_error res) = true
           /\ service w' = service w
       end.
Proof.
  run_auth.
  destruct (appwrite.createEmailPasswordSession account email password) as [sess|e],
           (appwrite.get account) as [u|e'];
    cbn; eexists _, _; (split; [reflexivity|]); cbn;
    repeat split; try apply formatError_truthy.
  all: destruct w as [[? ?] ?]; reflexivity.
Qed.

(** X16: the context's login never throws and always ends with isLoading
    false.  It succeeds exactly when the session creation and account.get
    both resolved; then the context holds that user and no error.
    Otherwise the user cell is left as it was (a user who was signed in
    stays signed in), the service is untouched, and the error cell holds
    the non-empty text of the result. *)
Theorem context_login_outcome account email password (w : World) :
  exists res w',
    AuthProvider.login account email password w = (inr res, w')
    /\ isLoading (context w') = false
    /\ (success res = true
        <-> exists session u,
              appwrite.createEmailPasswordSession account email password
                = appwrite.Resolves session
              /\ appwrite.get account = appwrite.Resolves u)
    /\ (if success res
        then user (context w') = r_user res
             /\ error (context w') = VNull
             /\ service w' = mkService (r_user res) true
             /\ appwrite.get account = appwrite.Resolves (r_user res)
        else user (context w') = user (context w)
             /\ error (context w') = r_error res
             /\ truthy (error (context w')) = true
             /\ service w' = service w).
Proof.
  run_auth.
  destruct (appwrite.createEmailPasswordSession account email password) as [sess|e],
           (appwrite.get account) as [u|e'];
    cbn; eexists _, _; (split; [reflexivity|]); cbn;
    (split; [reflexivity|]); split.
  all: try (split; [discriminate|intros (? & ? & ? & ?); discriminate]).
  all: try (split; [eauto|reflexivity]).
  all: repeat split; try apply formatError_truthy.
Qed.

(** X17: register reports success as soon as the account was created: when
    the automatic login that follows fails, the result is still a success
    carrying the created user, the context takes that user as signed in,
    and the service's isAuthenticated is left as it was.  When the account
    creation itself is rejected the result is a failure, the user cell is
    left as it was and the error cell holds the non-empty text.  isLoading
    ends false either way. *)
Theorem register_success_without_session account email password name (w : World) :
  exists res w',
    AuthProvider.register account email password name w = (inr res, w')
    /\ isLoading (context w') = false
    /\ match appwrite.create account email password name with
       | appwrite.Rejects e =>
           success res = false
           /\ user (context w') = user (context w)
           /\ error (context w') = authService.formatError e
           /\ service w' = service w
       | appwrite.Resolves created =>
           success res = true
           /\ error (context w') = VNull
           /\ match appwrite.createEmailPasswordSession account email password,
                    appwrite.get account with
              | appwrite.Resolves _, appwrite.Resolves u =>
                  user (context w') = u /\ service w' = mkService u true
              | _, _ =>
                  user (context w') = created
                  /\ r_message res
                     = VStr "Account created successfully. Please login."
                  /\ service w' = service w
              end
       end.
Proof.
  run_auth.
  destruct (appwrite.create account email password name) as [created|e0];
    [destruct (appwrite.createEmailPasswordSession account email password)
       as [sess|e],
              (appwrite.get account) as [u|e']|];
    cbn; eexists _, _; (split; [reflexivity|]); cbn; repeat split.
Qed.

(** X18: the context's logout never throws and ends with isLoading false.
    When the session deletion resolves, the user cell is null (the context
    reads as signed out) and the service's fields are cleared; when it is
    rejected, the user cell and the service are left as they were and the
    error cell holds the non-empty text. *)
Theorem logout_outcome account (w : World) :
  exists res w',
    AuthProvider.logout account w = (inr res, w')
    /\ isLoading (context w') = false
    /\ match appwrite.deleteSession account with
       | appwrite.Resolves _ =>
           success res = true
           /\ user (context w') = VNull
           /\ ctx_isAuthenticated (context w') = false
           /\ error (context w') = VNull
           /\ service w' = mkService VNull false
       | appwrite.Rejects e =>
           success res = false
           /\ user (context w') = user (context w)
           /\ error (context w') = authService.formatError e
           /\ truthy (error (context w')) = true
           /\ service w' = service w
       end.
Proof.
  run_auth.
  destruct (appwrite.deleteSession account) as [[]|e];
    cbn; eexists _, _; (split; [reflexivity|]); cbn;
    repeat split; apply formatError_truthy.
Qed.


(** X20: the protected route shows its children only when the context is
    not loading and holds a truthy user, and then never navigates away;
    while loading it shows the spinner and does not navigate.  After the
    provider's init, which never throws and ends with isLoading false, the
    route shows the children when account.get resolved with a truthy user,
    and shows nothing and navigates to the login page when account.get was
    rejected. *)
Theorem protected_route_after_init account (w : World) :
  (forall c, ProtectedRoute.render_under c = ProtectedRoute.Children
             <-> isLoading c = false /\ truthy (user c) = true)
  /\ (forall c, ProtectedRoute.render_under c = ProtectedRoute.Children ->
                ProtectedRoute.redirects_under c = false)
  /\ (forall c, isLoading c = true ->
                ProtectedRoute.render_under c = ProtectedRoute.Spinner
                /\ ProtectedRoute.redirects_under c = false)
  /\ exists w',
      AuthProvider.init account w = (inr tt, w')
      /\ isLoading (context w') = false
      /\ service w' = service w
      /\ match appwrite.get account with
         | appwrite.Resolves u =>
             user (context w') = u
             /\ ProtectedRoute.render_under (context w')
                = (if truthy u then ProtectedRoute.Children
                   else ProtectedRoute.Nothing)
             /\ ProtectedRoute.redirects_under (context w') = negb (truthy u)
         | appwrite.Rejects _ =>
             user (context w') = VNull
             /\ ProtectedRoute.render_under (context w') = ProtectedRoute.Nothing
             /\ ProtectedRoute.redirects_under (context w') = true
         end.
Proof.
  unfold ProtectedRoute.render_under, ProtectedRoute.redirects_under,
         ProtectedRoute.render, ProtectedRoute.redirects, ctx_isAuthenticated.
  split; [|split; [|split]].
  - intros c. destruct (isLoading c), (truthy (user c)); simpl; split;
      try discriminate; try reflexivity; try (intros [? ?]; discriminate); auto.
  - intros c. destruct (isLoading c), (truthy (user c)); simpl;
      try discriminate; reflexivity.
  - intros c ->. split; reflexivity.
  - run_auth.
    destruct (appwrite.get account) as [u|e];
      cbn; eexists; (split; [reflexivity|]); cbn;
      repeat split; destruct (truthy u); reflexivity.
Qed.

(** X21: the context's updateProfile never throws and leaves the loading
    flag as it was.  When account.updateName resolves with a user, the
    result is a success, the user cell and the service's currentUser hold
    that user, the error cell is null, and the service's isAuthenticated
    is left as it was.  When it is rejected, the user cell and the service
    are left as they were and the error cell holds the non-empty text of
    the result. *)
Theorem updateProfile_outcome account name (w : World) :
  exists res w',
    AuthProvider.updateProfile account name w = (inr res, w')
    /\ isLoading (context w') = isLoading (context w)
    /\ isAuthenticated (service w') = isAuthenticated (service w)
    /\ match appwrite.updateName account name with
       | appwrite.Resolves u =>
           success res = true
           /\ r_user res = u
           /\ user (context w') = u
           /\ currentUser (service w') = u
           /\ error (context w') = VNull
       | appwrite.Rejects e =>
           success res = false
           /\ user (context w') = user (context w)
           /\ service w' = service w
           /\ error (context w') = r_error res
           /\ r_error res = authService.formatError e
           /\ truthy (r_error res) = true
       end.
Proof.
  run_auth.
  destruct (appwrite.updateName account name) as [u|e];
    cbn; eexists _, _; (split; [reflexivity|]); cbn;
    repeat split; try reflexivity; apply formatError_truthy.
Qed.

End AuthProps.

(** ** Properties of the validators *)

Module ValidatorProps.
Import JSString RegExp Validators.
#[local] Open Scope list_scope.

(** [c{min,}k] matches exactly the strings that split into at least [min]
    code units of the class followed by a string [k] accepts. *)
Lemma many_spec (c : N -> bool) (k : str -> bool) (s : str) : forall min,
  many min c k s = true
  <-> exists pre post, s = pre ++ post /\ (min <= length pre)%nat
                       /\ forallb c pre = true /\ k post = true.
Proof.
  induction s as [|x s IH]; intros min; simpl.
  - rewrite orb_false_r. split.
    + destruct min; [|discriminate]. intros Hk. exists [], []. auto.
    + intros (pre & post & Hs & Hmin & _ & Hk).
      symmetry in Hs. apply app_eq_nil in Hs as [-> ->].
      simpl in Hmin. destruct min; [exact Hk|lia].
  - rewrite orb_true_iff, andb_true_iff, IH. split.
    + intros [Hk | (Hx & pre & post & -> & Hmin & Hpre & Hk)].
      * destruct min; [|discriminate]. exists [], (x :: s). auto.
      * exists (x :: pre), post. simpl. rewrite Hx, Hpre.
        repeat split; [lia|exact Hk].
    + intros (pre & post & Hs & Hmin & Hpre & Hk). destruct pre as [|y pre].
      * left. simpl in *. subst post. destruct min; [exact Hk|lia].
      * right. simpl in *. injection Hs as -> ->.
        apply andb_true_iff in Hpre as [Hy Hpre].
        split; [exact Hy|]. exists pre, post. repeat split; [lia|exact Hpre|exact Hk].
Qed.

Lemma many_to_end (c : N -> bool) (s : str) (min : nat) :
  many min c (test []) s = true
  <-> (min <= length s)%nat /\ forallb c s = true.
Proof.
  rewrite many_spec. split.
  - intros (pre & post & -> & Hmin & Hpre & Hk). destruct post; [|discriminate].
    rewrite app_nil_r. auto.
  - intros (Hmin & Hall). exists s, []. rewrite app_nil_r. auto.
Qed.

Lemma password_char_dot (c : N) : password_char c = true -> dot c = true.
Proof.
  unfold password_char, dot, line_terminator, lower, upper, digit, in_range, one_of.
  simpl. intros H.
  destruct (N.eqb_spec c 10), (N.eqb_spec c 13), (N.eqb_spec c 8232),
           (N.eqb_spec c 8233); subst; try discriminate H; reflexivity.
Qed.

(** [(?=.*[c])] at the start, on a string of password characters. *)
Lemma ahead_spec (c : N -> bool) (s : str) :
  forallb password_char s = true ->
  prefix_match [Many 0 dot; One c] s = existsb c s.
Proof.
  intros Hall. apply eq_true_iff_eq. simpl. rewrite many_spec. split.
  - intros (pre & post & -> & _ & _ & Hk). destruct post as [|x post]; [discriminate|].
    apply andb_true_iff in Hk as [Hx _].
    rewrite existsb_app. simpl. rewrite Hx. apply orb_true_iff. right. reflexivity.
  - intros Hex. apply existsb_exists in Hex as (x & Hin & Hx).
    apply in_split in Hin as (pre & post & ->).
    exists pre, (x :: post). repeat split; [lia| |simpl; rewrite Hx; reflexivity].
    rewrite forallb_app in Hall. apply andb_true_iff in Hall as [Hpre _].
    apply forallb_forall. intros y Hy. apply password_char_dot.
    rewrite forallb_forall in Hpre. apply Hpre, Hy.
Qed.

(** X22: isValidPassword accepts exactly the strings of at least 8 code
    units, all taken from a-z, A-Z, 0-9 and @$!%*?&, that contain a
    lowercase letter, an uppercase letter and a digit; so a password with
    any other character (a space, '#', '-', an accented letter) is
    rejected whatever else it contains. *)
Theorem isValidPassword_spec (password : str) :
  (isValidPassword password = true
   <-> (8 <= length password)%nat
       /\ forallb password_char password = true
       /\ existsb lower password = true
       /\ existsb upper password = true
       /\ existsb digit password = true)
  /\ (forall c, In c password -> password_char c = false ->
                isValidPassword password = false).
Proof.
  assert (Hiff : isValidPassword password = true
   <-> (8 <= length password)%nat
       /\ forallb password_char password = true
       /\ existsb lower password = true
       /\ existsb upper password = true
       /\ existsb digit password = true).
  { unfold isValidPassword, passwordRegex. cbn [test].
    rewrite !andb_true_iff, many_to_end. split.
    - intros (Hl & Hu & Hd & Hlen & Hall).
      rewrite (ahead_spec lower _ Hall) in Hl.
      rewrite (ahead_spec upper _ Hall) in Hu.
      rewrite (ahead_spec digit _ Hall) in Hd. auto.
    - intros (Hlen & Hall & Hl & Hu & Hd).
      rewrite (ahead_spec lower _ Hall), (ahead_spec upper _ Hall),
              (ahead_spec digit _ Hall). auto. }
  split; [exact Hiff|].
  intros c Hin Hc. apply not_true_is_false. intros E.
  apply Hiff in E as (_ & Hall & _). rewrite forallb_forall in Hall.
  rewrite (Hall c Hin) in Hc. discriminate.
Qed.

Lemma isValidPassword_spec_witness :
  isValidPassword (of_ascii "Passw0rd") = true
  /\ isValidPassword (of_ascii "Passw0rd#") = false
  /\ isValidPassword (of_ascii "password1") = false.
Proof.
  split; [|split].
  - apply (proj1 (isValidPassword_spec _)). vm_compute. repeat split; lia.
  - apply (proj2 (isValidPassword_spec _) 35%N); vm_compute; auto 20.
  - reflexivity.
Defined.

(** X23: isValidEmail accepts exactly the strings of the form
    local@domain.rest where local, domain and rest are non-empty and hold
    neither white space nor '@'; an accepted address therefore has exactly
    one '@', no white space, and at least five code units. *)
Theorem isValidEmail_spec (email : str) :
  (isValidEmail email = true
   <-> exists a b c,
         email = a ++ 64%N :: b ++ 46%N :: c
         /\ a <> [] /\ b <> [] /\ c <> []
         /\ forallb not_space_at a = true
         /\ forallb not_space_at b = true
         /\ forallb not_space_at c = true)
  /\ (isValidEmail email = true ->
      forallb (fun x => negb (white_space x)) email = true
      /\ (5 <= length email)%nat
      /\ length (filter (fun x => x = 64%N) email) = 1%nat).
Proof.
  assert (Hne : forall l : str, (1 <= length l)%nat <-> l <> []).
  { intros [|? ?]; simpl; split; intros; try congruence; lia. }
  assert (Hiff : isValidEmail email = true
   <-> exists a b c,
         email = a ++ 64%N :: b ++ 46%N :: c
         /\ a <> [] /\ b <> [] /\ c <> []
         /\ forallb not_space_at a = true
         /\ forallb not_space_at b = true
         /\ forallb not_space_at c = true).
  { unfold isValidEmail, emailRegex. cbn [test]. rewrite many_spec. split.
    - intros (a & rest & -> & Ha & Halla & Hk).
      destruct rest as [|x rest]; [discriminate|].
      apply andb_true_iff in Hk as [Hx Hk]. apply N.eqb_eq in Hx. subst x.
      apply many_spec in Hk as (b & rest2 & -> & Hb & Hallb & Hk).
      destruct rest2 as [|y rest2]; [discriminate|].
      apply andb_true_iff in Hk as [Hy Hk]. apply N.eqb_eq in Hy. subst y.
      apply many_to_end in Hk as (Hc & Hallc).
      exists a, b, rest2. rewrite <- !Hne. auto 10.
    - intros (a & b & c & -> & Ha & Hb & Hc & Halla & Hallb & Hallc).
      exists a, (64%N :: b ++ 46%N :: c). rewrite Hne.
      repeat split; [exact Ha|exact Halla|].
      apply andb_true_iff. split; [reflexivity|]. apply many_spec.
      exists b, (46%N :: c). rewrite Hne. repeat split; [exact Hb|exact Hallb|].
      apply andb_true_iff. split; [reflexivity|]. apply many_to_end.
      rewrite Hne. auto. }
  split; [exact Hiff|].
  intros Hv. apply Hiff in Hv
    as (a & b & c & -> & Ha & Hb & Hc & Halla & Hallb & Hallc).
  assert (Hns : forall l, forallb not_space_at l = true ->
            forallb (fun x => negb (white_space x)) l = true
            /\ filter (fun x => x = 64%N) l = []).
  { induction l as [|x l IH]; simpl; [auto|]. intros H.
    apply andb_true_iff in H as [Hx Hl]. destruct (IH Hl) as (H1 & H2).
    unfold not_space_at in Hx. apply negb_true_iff, orb_false_iff in Hx as [Hw Hat].
    rewrite Hw, H1. split; [reflexivity|].
    rewrite filter_cons. apply N.eqb_neq in Hat.
    destruct (decide (x = 64%N)); [contradiction|exact H2]. }
  destruct (Hns a Halla) as (Wa & Fa), (Hns b Hallb) as (Wb & Fb),
           (Hns c Hallc) as (Wc & Fc).
  split; [|split].
  - rewrite forallb_app. simpl. rewrite forallb_app. simpl.
    rewrite Wa, Wb, Wc. reflexivity.
  - rewrite length_app. simpl. rewrite length_app. simpl.
    apply Hne in Ha, Hb, Hc. lia.
  - unfold str. rewrite list.filter_app, Fa, filter_cons.
    destruct (decide (64%N = 64%N)); [|congruence].
    rewrite list.filter_app, Fb, filter_cons.
    destruct (decide (46%N = 64%N)); [discriminate|].
    rewrite Fc. reflexivity.
Qed.

Lemma isValidEmail_spec_witness :
  isValidEmail (of_ascii "ops@example.org") = true
  /\ length (filter (fun x => x = 64%N) (of_ascii "ops@example.org")) = 1%nat.
Proof.
  split; [reflexivity|].
  exact (proj2 (proj2 (proj2 (isValidEmail_spec (of_ascii "ops@example.org"))
                         eq_refl))).
Defined.

End ValidatorProps.

(** ** Properties of the login form *)

Module LoginProps.
Import JSString Validators Login.
#[local] Open Scope list_scope.

(** X24: validateForm returns true exactly when it recorded no error, and
    that is: in login mode, when the email is valid and the password is not
    empty; in register mode, when moreover the password is valid, the
    trimmed name has at least two code units and the confirmation equals
    the password. *)
Theorem validateForm_accepts (isRegisterMode : bool) (formData : FormData) :
  (snd (validateForm isRegisterMode formData) = true
   <-> fst (validateForm isRegisterMode formData) = ∅)
  /\ (snd (validateForm isRegisterMode formData) = true
      <-> isValidEmail (email formData) = true
          /\ password formData <> []
          /\ (isRegisterMode = true ->
              isValidPassword (password formData) = true
              /\ (2 <= length (trim (name formData)))%nat
              /\ confirmPassword formData = password formData)).
Proof.
  destruct formData as [em pw nm cf]. unfold validateForm. cbn [email password name confirmPassword].
  assert (He : isValidEmail [] = false) by reflexivity.
  destruct em as [|e0 em]; [rewrite He|]; cbn [blank];
    destruct pw as [|p0 pw]; cbn [blank];
    destruct isRegisterMode; cbn [andb orb negb];
    try destruct (isValidEmail (e0 :: em));
    try destruct (isValidPassword (p0 :: pw));
    try destruct nm as [|n0 nm]; cbn [blank andb orb negb];
    try destruct cf as [|c0 cf]; cbn [blank andb orb negb];
    try (destruct (Nat.ltb_spec (length (trim (n0 :: nm))) 2) as [Hlt|Hge]);
    try (case_bool_decide as Hcf);
    (split; [split; [intros Hv; vm_compute in Hv; try discriminate Hv; reflexivity
                    |intros Hv;
                     try (apply (f_equal size) in Hv; vm_compute in Hv; discriminate Hv);
                     reflexivity]
            |split; [intros Hv; vm_compute in Hv; try discriminate Hv;
                     repeat split; try discriminate; try reflexivity;
                     intros; repeat split; try congruence; try lia
                    |intros (Hv1 & Hv2 & Hv3); try discriminate Hv1; try congruence;
                     try (destruct (Hv3 eq_refl) as (Hv4 & Hv5 & Hv6);
                          try discriminate; simpl in *; try congruence; try lia);
                     reflexivity]]).
Qed.

End LoginProps.

(** ** Properties of the profile forms *)

Module UserProfileProps.
Import JSString Validators UserProfile.
#[local] Open Scope list_scope.

(** X25: each profile form validator returns true exactly when it recorded
    no error.  validateProfileForm accepts exactly the names whose trimmed
    text has at least two code units.  validatePasswordForm accepts exactly
    when the current password is not empty, the new password is valid and
    the confirmation equals the new password; it never compares the new
    password with the current one, so a valid password given as both is
    accepted. *)
Theorem profile_forms_accept (name : str) (passwordData : PasswordData) :
  (snd (validateProfileForm name) = true <-> fst (validateProfileForm name) = ∅)
  /\ (snd (validateProfileForm name) = true <-> (2 <= length (trim name))%nat)
  /\ (snd (validatePasswordForm passwordData) = true
      <-> fst (validatePasswordForm passwordData) = ∅)
  /\ (snd (validatePasswordForm passwordData) = true
      <-> oldPassword passwordData <> []
          /\ isValidPassword (newPassword passwordData) = true
          /\ confirmPassword passwordData = newPassword passwordData)
  /\ (forall p, isValidPassword p = true ->
        snd (validatePasswordForm (mkPasswordData p p p)) = true).
Proof.
  assert (Hv0 : isValidPassword [] = false) by reflexivity.
  assert (Hpw : forall pd,
             snd (validatePasswordForm pd) = true
             <-> oldPassword pd <> []
                 /\ isValidPassword (newPassword pd) = true
                 /\ confirmPassword pd = newPassword pd).
  { intros [old new cf]. unfold validatePasswordForm.
    cbn [oldPassword newPassword confirmPassword].
    destruct old as [|o0 old]; cbn [Login.blank];
      (destruct new as [|n0 new]; cbn [Login.blank];
       [rewrite Hv0 | destruct (isValidPassword (n0 :: new))]);
      cbn [negb];
      (destruct cf as [|c0 cf]; cbn [Login.blank negb];
       [|case_bool_decide as Hcf; cbn [negb]]);
      (split;
       [intros Hv; vm_compute in Hv; try discriminate Hv;
        repeat split; try discriminate; congruence
       |intros (Hv1 & Hv2 & Hv3); try discriminate; try congruence;
        reflexivity]). }
  split; [|split; [|split; [|split]]].
  - unfold validateProfileForm.
    destruct (Login.blank name || (length (trim name) <? 2)%nat);
      cbn [fst snd]; split; intros Hv.
    + vm_compute in Hv. discriminate Hv.
    + apply (f_equal size) in Hv. vm_compute in Hv. discriminate Hv.
    + reflexivity.
    + reflexivity.
  - unfold validateProfileForm.
    destruct name as [|n0 name]; cbn [Login.blank orb].
    + cbn [fst snd]. split; intros Hv.
      * vm_compute in Hv. discriminate Hv.
      * vm_compute in Hv. lia.
    + destruct (Nat.ltb_spec (length (trim (n0 :: name))) 2) as [Hlt|Hge];
        cbn [fst snd]; split; intros Hv.
      * vm_compute in Hv. discriminate Hv.
      * lia.
      * exact Hge.
      * reflexivity.
  - destruct passwordData as [old new cf]. unfold validatePasswordForm.
    cbn [oldPassword newPassword confirmPassword].
    destruct (Login.blank old), (Login.blank new),
             (negb (isValidPassword new)), (Login.blank cf),
             (negb (bool_decide (new = cf)));
      cbn [fst snd]; split; intros Hv;
      first [ reflexivity
            | vm_compute in Hv; discriminate Hv
            | apply (f_equal size) in Hv; vm_compute in Hv; discriminate Hv ].
  - apply Hpw.
  - intros p Hp. apply Hpw. cbn [oldPassword newPassword confirmPassword].
    repeat split; [|exact Hp].
    intros ->. rewrite Hv0 in Hp. discriminate Hp.
Qed.

End UserProfileProps.

(** ** Properties of the video player component *)

Module PlayerProps.
Import ViamVideoPlayer Player PlayerSpec.

Lemma same_but_info_refl c : same_but_info c c.
Proof. repeat split. Qed.

Lemma same_but_info_trans c1 c2 c3 :
  same_but_info c1 c2 -> same_but_info c2 c3 -> same_but_info c1 c3.
Proof. unfold same_but_info. intuition congruence. Qed.

Lemma quietly_ret {T} (x : T) : quietly (mret x).
Proof. intros c. apply same_but_info_refl. Qed.

Lemma quietly_throw {T} (message : string) : quietly (throw (T := T) message).
Proof. intros c. apply same_but_info_refl. Qed.

Lemma quietly_bind {T U} (m : P T) (f : T -> P U) :
  quietly m -> (forall x, quietly (f x)) -> quietly (m ≫= f).
Proof.
  intros Hm Hf c. cbv [mbind P_bind]. specialize (Hm c).
  destruct (m c) as [[e|x] c1]; simpl in *; [exact Hm|].
  exact (same_but_info_trans _ _ _ Hm (Hf x c1)).
Qed.

Lemma quietly_await_fetch f : quietly (await_fetch f).
Proof. destruct f; [apply quietly_throw|apply quietly_ret]. Qed.

Lemma quietly_await_json r : quietly (await_json r).
Proof.
  unfold await_json. destruct (json r); [apply quietly_throw|apply quietly_ret].
Qed.

Lemma quietly_read v name : quietly (read v name).
Proof.
  unfold read. destruct (get_prop v name); [apply quietly_ret|apply quietly_throw].
Qed.

Lemma quietly_set_cameraInfo v : quietly (set (with_cameraInfo v)).
Proof. intros c. repeat split. Qed.

Lemma quietly_set_streamUrl v : quietly (set (with_streamUrl v)).
Proof. intros c. repeat split. Qed.

(** Searching never touches the component. *)
Lemma find_by_name_pure (cameraName : string) (elems : list jvalue) :
  exists r, forall c, find_by_name cameraName elems c = (r, c).
Proof.
  induction elems as [|x elems (r & IH)]; [exists (inr JUndefined); reflexivity|].
  simpl. unfold read.
  destruct (get_prop x "name") as [n|]; cbv [mbind P_bind mret P_ret throw].
  - destruct n; try (exists r; exact IH).
    destruct (String.eqb s cameraName); [exists (inr x); reflexivity|].
    exists r. exact IH.
  - exists (inl (null_read_message "name")). reflexivity.
Qed.

Lemma quietly_find_camera cameraName cameras :
  quietly (find_camera cameraName cameras).
Proof.
  destruct cameras; simpl;
    try apply quietly_ret; try apply quietly_throw.
  destruct (find_by_name_pure cameraName elems) as (r & Hr).
  intros c. rewrite Hr. apply same_but_info_refl.
Qed.

Lemma starts_or_throws_bind {T} (m : P T) (f : T -> P unit) :
  quietly m -> (forall x, starts_or_throws (f x)) -> starts_or_throws (m ≫= f).
Proof.
  intros Hm Hf c. cbv [mbind P_bind]. specialize (Hm c).
  destruct (m c) as [[e|x] c1]; simpl in *; [exact Hm|].
  specialize (Hf x c1). destruct (f x c1) as [[e|u] c2].
  - exact (same_but_info_trans _ _ _ Hm Hf).
  - destruct Hf as (c3 & H13 & Hs). exists c3.
    split; [exact (same_but_info_trans _ _ _ Hm H13)|exact Hs].
Qed.

Lemma starts_feed : starts_or_throws (startLiveFeed;; set (with_isConnected true)).
Proof.
  intros c. cbv [mbind P_bind startLiveFeed close_current set]. simpl.
  exists c. split; [apply same_but_info_refl|].
  unfold started. destruct (eventSourceRef c) eqn:E; simpl; rewrite ?E;
    repeat split; reflexivity.
Qed.

(** Closing quiet steps and conditionals. *)
Ltac quiet :=
  repeat first
    [ apply quietly_ret | apply quietly_throw | apply quietly_await_fetch
    | apply quietly_await_json | apply quietly_read | apply quietly_find_camera
    | apply quietly_set_cameraInfo | apply quietly_set_streamUrl
    | apply quietly_bind; [|intros ?]
    | match goal with |- quietly (if ?b then _ else _) => destruct b end ].

Lemma connect_steps_start_or_throw gateway cameraName :
  starts_or_throws (connect_steps gateway cameraName).
Proof.
  unfold connect_steps.
  apply starts_or_throws_bind; [quiet|intros statusResponse].
  apply starts_or_throws_bind; [quiet|intros statusData].
  apply starts_or_throws_bind; [quiet|intros connected].
  apply starts_or_throws_bind; [quiet|intros _].
  apply starts_or_throws_bind; [quiet|intros cameraResponse].
  apply starts_or_throws_bind; [quiet|intros _].
  apply starts_feed.
Qed.

Lemma connectToCamera_unfold gateway cameraName :
  connectToCamera gateway cameraName
  = try_finally
      (try_catch
         (set (with_isLoading true);;
          set (with_error JNull);;
          connect_steps gateway cameraName)
         (fun message => set (with_error (JStr message))))
      (set (with_isLoading false)).
Proof. reflexivity. Qed.

Lemma connectToCamera_ends gateway cameraName (c : Component) :
  exists c',
    connectToCamera gateway cameraName c = (inr tt, c')
    /\ isLoading (session c') = false
    /\ currentImage (session c') = currentImage (session c)
    /\ detections (session c') = detections (session c)
    /\ intervalRef c' = intervalRef c
    /\ running_intervals c' = running_intervals c
    /\ ((error (session c') = JNull
         /\ isConnected (session c') = true
         /\ eventSourceRef c' = Some (constructed c)
         /\ constructed c' = S (constructed c)
         /\ open_sources c'
            = (match eventSourceRef c with
               | Some i => open_sources c ∖ {[i]}
               | None => open_sources c
               end) ∪ {[constructed c]})
        \/ ((exists message, error (session c') = JStr message)
            /\ isConnected (session c') = isConnected (session c)
            /\ eventSourceRef c' = eventSourceRef c
            /\ constructed c' = constructed c
            /\ open_sources c' = open_sources c)).
Proof.
  rewrite connectToCamera_unfold.
  cbv [try_finally try_catch mbind P_bind set].
  cbn [session eventSourceRef intervalRef open_sources running_intervals
       constructed].
  set (c0 := mkComponent (with_error JNull (with_isLoading true (session c)))
               (eventSourceRef c) (intervalRef c) (open_sources c)
               (running_intervals c) (constructed c)).
  pose proof (connect_steps_start_or_throw gateway cameraName c0) as Hsteps.
  destruct (connect_steps gateway cameraName c0) as [[message|[]] c1].
  - destruct Hsteps as (H1 & H2 & H3 & H4 & H5 & H6 & H7 & H8 & H9 & H10).
    eexists. split; [reflexivity|]. simpl.
    repeat split; try assumption. right. repeat split; eauto.
  - destruct Hsteps as (c2 & (H1 & H2 & H3 & H4 & H5 & H6 & H7 & H8 & H9 & H10)
                           & (S1 & S2 & S3 & S4 & S5 & S6 & S7 & S8 & S9 & S10)).
    subst c0. cbn in H1, H2, H3, H4, H5, H6, H7, H8, H9, H10.
    eexists. split; [reflexivity|]. simpl.
    split; [reflexivity|]. split; [congruence|]. split; [congruence|].
    split; [congruence|]. split; [congruence|]. left.
    split; [congruence|]. split; [exact S1|]. split; [congruence|].
    split; [congruence|]. rewrite S8, H1, H3, H5. reflexivity.
Qed.

Lemma run_connect gateway cameraName (c : Component) :
  connectToCamera gateway cameraName c
  = (let c0 := mkComponent (with_error JNull (with_isLoading true (session c)))
                 (eventSourceRef c) (intervalRef c) (open_sources c)
                 (running_intervals c) (constructed c) in
     match connect_steps gateway cameraName c0 with
     | (inl message, c1) =>
         (inr tt, mkComponent
                    (with_isLoading false (with_error (JStr message) (session c1)))
                    (eventSourceRef c1) (intervalRef c1) (open_sources c1)
                    (running_intervals c1) (constructed c1))
     | (inr _, c1) =>
         (inr tt, mkComponent (with_isLoading false (session c1))
                    (eventSourceRef c1) (intervalRef c1) (open_sources c1)
                    (running_intervals c1) (constructed c1))
     end).
Proof.
  rewrite connectToCamera_unfold.
  cbv [try_finally try_catch mbind P_bind set].
  cbn [session eventSourceRef intervalRef open_sources running_intervals
       constructed].
  destruct (connect_steps gateway cameraName _) as [[message|[]] c1]; reflexivity.
Qed.

(** X26: connectToCamera never throws and always ends with isLoading
    false, the current frame and the detections untouched.  Either it
    ends connected: error null, isConnected true, the source the ref held
    closed and a newly constructed one open and held by the ref; or it
    ends with an error message in the error cell and isConnected, the ref
    and the open sources exactly as before (no source is constructed).  A
    rejected status fetch ends with that rejection's message; a gateway
    that reports not connected and then refuses the connect call ends with
    "Failed to connect to VIAM robot"; a camera listing that is not ok
    does not prevent connecting. *)
Theorem connectToCamera_outcome gateway cameraName (c : Component) :
  exists c',
    connectToCamera gateway cameraName c = (inr tt, c')
    /\ isLoading (session c') = false
    /\ currentImage (session c') = currentImage (session c)
    /\ detections (session c') = detections (session c)
    /\ ((error (session c') = JNull
         /\ isConnected (session c') = true
         /\ eventSourceRef c' = Some (constructed c)
         /\ constructed c' = S (constructed c)
         /\ open_sources c'
            = (match eventSourceRef c with
               | Some i => open_sources c ∖ {[i]}
               | None => open_sources c
               end) ∪ {[constructed c]})
        \/ ((exists message, error (session c') = JStr message)
            /\ isConnected (session c') = isConnected (session c)
            /\ eventSourceRef c' = eventSourceRef c
            /\ constructed c' = constructed c
            /\ open_sources c' = open_sources c))
    /\ (forall message, viam_status gateway = FetchFails message ->
          error (session c') = JStr message)
    /\ (forall data connected response,
          viam_status gateway = FetchResponse (mkResponse true (inr data)) ->
          get_prop data "connected" = Some connected ->
          truthy connected = false ->
          viam_connect gateway = FetchResponse response ->
          ok response = false ->
          error (session c') = JStr "Failed to connect to VIAM robot")
    /\ (forall data connected response,
          viam_status gateway = FetchResponse (mkResponse true (inr data)) ->
          get_prop data "connected" = Some connected ->
          truthy connected = true ->
          viam_cameras gateway = FetchResponse response ->
          ok response = false ->
          error (session c') = JNull /\ isConnected (session c') = true).
Proof.
  destruct (connectToCamera_ends gateway cameraName c)
    as (c' & Hrun & Hl & Hi & Hd & _ & _ & Hcases).
  exists c'. split; [exact Hrun|]. split; [exact Hl|]. split; [exact Hi|].
  split; [exact Hd|]. split; [exact Hcases|].
  rewrite run_connect in Hrun. cbv zeta in Hrun.
  split; [|split].
  - intros message Hs. unfold connect_steps in Hrun. rewrite Hs in Hrun.
    injection Hrun as <-. reflexivity.
  - intros data connected response Hs Hc Hf Hconn Hok.
    unfold connect_steps in Hrun. rewrite Hs, Hconn in Hrun.
    cbv [mbind P_bind await_fetch await_json read mret P_ret throw json] in Hrun.
    rewrite Hc in Hrun. cbn in Hrun. rewrite Hf in Hrun. cbn in Hrun.
    rewrite Hok in Hrun. cbn in Hrun. injection Hrun as <-. reflexivity.
  - intros data connected response Hs Hc Ht Hcam Hok.
    unfold connect_steps in Hrun. rewrite Hs, Hcam in Hrun.
    cbv [mbind P_bind await_fetch await_json read mret P_ret throw json
         startLiveFeed close_current set] in Hrun.
    rewrite Hc in Hrun. cbn in Hrun. rewrite Ht in Hrun. cbn in Hrun.
    rewrite Hok in Hrun. cbn in Hrun. injection Hrun as <-.
    clear Hl Hi Hd Hcases. destruct (eventSourceRef c); split; reflexivity.
Qed.

Lemma connectToCamera_outcome_witness :
  (exists c',
      connectToCamera gateway_down "front-gate" initialComponent = (inr tt, c')
      /\ error (session c') = JStr "Failed to connect to VIAM robot"
      /\ open_sources c' = ∅)
  /\ (exists c',
      connectToCamera gateway_up "front-gate" initialComponent = (inr tt, c')
      /\ isConnected (session c') = true
      /\ eventSourceRef c' = Some 0%nat).
Proof.
  split.
  - destruct (connectToCamera_outcome gateway_down "front-gate" initialComponent)
      as (c' & Hrun & _ & _ & _ & Hcases & _ & Hdown & _).
    exists c'. split; [exact Hrun|].
    assert (He : error (session c') = JStr "Failed to connect to VIAM robot").
    { eapply Hdown; reflexivity. }
    split; [exact He|].
    destruct Hcases as [(Hn & _) | (_ & _ & _ & _ & Ho)];
      [rewrite He in Hn; discriminate Hn | exact Ho].
  - destruct (connectToCamera_outcome gateway_up "front-gate" initialComponent)
      as (c' & Hrun & _ & _ & _ & Hcases & _).
    exists c'. split; [exact Hrun|].
    destruct Hcases as [(_ & Hc & Hr & _) | ((message & Hm) & _)].
    + split; [exact Hc|exact Hr].
    + exfalso. vm_compute in Hrun. injection Hrun as <-. discriminate Hm.
Defined.

Lemma getDetections_ends f (c : Component) :
  getDetections f c = (inr tt, c)
  \/ (exists data flag dets,
        f = FetchResponse (mkResponse true (inr data))
        /\ get_prop data "success" = Some flag
        /\ truthy flag = true
        /\ get_prop data "detections" = Some dets
        /\ getDetections f c
           = (inr tt, mkComponent (with_detections dets (session c))
                        (eventSourceRef c) (intervalRef c) (open_sources c)
                        (running_intervals c) (constructed c))).
Proof.
  destruct f as [message | [[] [message | data]]];
    try (left; reflexivity).
  destruct (get_prop data "success") as [flag|] eqn:Hflag.
  - destruct (truthy flag) eqn:Ht.
    + destruct (get_prop data "detections") as [dets|] eqn:Hdets.
      * right. exists data, flag, dets.
        repeat (split; [first [reflexivity | assumption]|]).
        cbv [getDetections try_catch mbind P_bind await_fetch await_json read
             mret P_ret ok json set].
        rewrite Hflag. cbn. rewrite Ht, Hdets. reflexivity.
      * left.
        cbv [getDetections try_catch mbind P_bind await_fetch await_json read
             mret P_ret ok json set throw].
        rewrite Hflag. cbn. rewrite Ht, Hdets. reflexivity.
    + left.
      cbv [getDetections try_catch mbind P_bind await_fetch await_json read
           mret P_ret ok json set throw].
      rewrite Hflag. cbn. rewrite Ht. reflexivity.
  - left.
    cbv [getDetections try_catch mbind P_bind await_fetch await_json read
         mret P_ret ok json set throw].
    rewrite Hflag. reflexivity.
Qed.

(** X27: getDetections never throws and changes nothing but the detections
    cell: the refs, the open sources and every other state cell are as
    before, the error cell included (a failed fetch is only logged).  The
    detections cell changes only when the fetch gave an ok response whose
    body has a truthy success field, and it then becomes the body's
    detections field as it is: for a body without that field it becomes
    undefined (the stream handler falls back to the empty list, this
    function does not). *)
Theorem getDetections_only_detections f (c : Component) :
  exists c',
    getDetections f c = (inr tt, c')
    /\ eventSourceRef c' = eventSourceRef c
    /\ intervalRef c' = intervalRef c
    /\ open_sources c' = open_sources c
    /\ running_intervals c' = running_intervals c
    /\ constructed c' = constructed c
    /\ isConnected (session c') = isConnected (session c)
    /\ isLoading (session c') = isLoading (session c)
    /\ error (session c') = error (session c)
    /\ currentImage (session c') = currentImage (session c)
    /\ streamUrl (session c') = streamUrl (session c)
    /\ cameraInfo (session c') = cameraInfo (session c)
    /\ (detections (session c') = detections (session c)
        \/ exists data flag,
             f = FetchResponse (mkResponse true (inr data))
             /\ get_prop data "success" = Some flag
             /\ truthy flag = true
             /\ get_prop data "detections" = Some (detections (session c')))
    /\ (forall fields,
          f = FetchResponse (mkResponse true (inr (JObj fields))) ->
          truthy (own_property fields "success") = true ->
          detections (session c') = own_property fields "detections").
Proof.
  destruct (getDetections_ends f c)
    as [Hrun | (data & flag & dets & Hf & Hflag & Ht & Hdets & Hrun)].
  - exists c. split; [exact Hrun|].
    do 11 (split; [reflexivity|]). split; [left; reflexivity|].
    intros fields Hf Ht. subst f.
    cbv [getDetections try_catch mbind P_bind await_fetch await_json read
         mret P_ret ok json set throw get_prop] in Hrun.
    rewrite Ht in Hrun. injection Hrun as Hrun.
    rewrite <- Hrun at 1. reflexivity.
  - eexists. split; [exact Hrun|].
    do 11 (split; [reflexivity|]). split.
    + right. exists data, flag. repeat (split; [assumption|]). exact Hdets.
    + intros fields Hf' _. rewrite Hf in Hf'. injection Hf' as ->.
      cbn in Hdets. injection Hdets as <-. reflexivity.
Qed.

Lemma getDetections_only_detections_witness :
  exists c',
    getDetections
      (FetchResponse (mkResponse true (inr (JObj [("success", JBool true)]))))
      initialComponent = (inr tt, c')
    /\ detections (session c') = JUndefined.
Proof.
  destruct (getDetections_only_detections
              (FetchResponse
                 (mkResponse true (inr (JObj [("success", JBool true)]))))
              initialComponent)
    as (c' & Hrun & _ & _ & _ & _ & _ & _ & _ & _ & _ & _ & _ & _ & Hset).
  exists c'. split; [exact Hrun|].
  exact (Hset [("success", JBool true)] eq_refl eq_refl).
Defined.

Lemma onmessage_cells JSON_parse event_data (st : Session) :
  isConnected (onmessage JSON_parse event_data st) = isConnected st
  /\ isLoading (onmessage JSON_parse event_data st) = isLoading st
  /\ streamUrl (onmessage JSON_parse event_data st) = streamUrl st
  /\ cameraInfo (onmessage JSON_parse event_data st) = cameraInfo st.
Proof.
  cbv [onmessage try_log mbind Handler_bind try_eval].
  destruct (JSON_parse event_data) as [data|]; [|repeat split; reflexivity].
  destruct (get_prop data "error") as [err|]; [|repeat split; reflexivity].
  destruct (truthy err); [repeat split; reflexivity|].
  destruct (get_prop data "image") as [image|]; [|repeat split; reflexivity].
  cbn. destruct (get_prop data "detections") as [dets|];
    repeat split; reflexivity.
Qed.

Lemma disconnect_ends (c : Component) :
  exists c',
    disconnect c = (inr tt, c')
    /\ eventSourceRef c' = None
    /\ intervalRef c' = None
    /\ open_sources c'
       = match eventSourceRef c with
         | Some i => open_sources c ∖ {[i]}
         | None => open_sources c
         end
    /\ running_intervals c'
       = match intervalRef c with
         | Some t => running_intervals c ∖ {[t]}
         | None => running_intervals c
         end
    /\ constructed c' = constructed c
    /\ isConnected (session c') = false
    /\ currentImage (session c') = JNull
    /\ detections (session c') = JArr []
    /\ error (session c') = error (session c)
    /\ isLoading (session c') = isLoading (session c).
Proof.
  unfold disconnect.
  destruct (eventSourceRef c) as [i|] eqn:Hr;
    destruct (intervalRef c) as [t|] eqn:Hi;
    cbn; rewrite ?Hi, ?Hr; cbn;
    eexists; (split; [reflexivity|]); cbn; rewrite ?Hr, ?Hi;
    repeat split; reflexivity.
Qed.






(** X29: only connectToCamera turns the live indicator on.  A stream
    message and a detection fetch leave isConnected as it is, a disconnect
    and a stream error on an open source set it to false.  So when the
    source reports an error and then delivers a frame (a payload whose
    error field is falsy), the component shows that frame with the error
    cleared while isConnected stays false, and the source is still open
    and held by the ref. *)
Theorem frame_after_stream_error
    JSON_parse (c : Component) i event_data data err image :
  eventSourceRef c = Some i ->
  JSON_parse event_data = Some data ->
  get_prop data "error" = Some err ->
  truthy err = false ->
  get_prop data "image" = Some image ->
  (forall d, isConnected (session (step JSON_parse (Message d) c))
             = isConnected (session c))
  /\ (forall f, isConnected (session (step JSON_parse (Detections f) c))
                = isConnected (session c))
  /\ isConnected (session (step JSON_parse Disconnect c)) = false
  /\ isConnected (session (step JSON_parse StreamError c)) = false
  /\ error (session (step JSON_parse StreamError c))
     = JStr "Live feed connection lost"
  /\ currentImage (session (step JSON_parse StreamError c))
     = currentImage (session c)
  /\ (let c' := run JSON_parse [StreamError; Message event_data] c in
      isConnected (session c') = false
      /\ error (session c') = JNull
      /\ currentImage (session c') = image
      /\ eventSourceRef c' = Some i
      /\ open_sources c' = open_sources c).
Proof.
  intros Hs Hparse Herr Hfalsy Himage.
  split; [|split; [|split; [|split; [|split; [|split]]]]].
  - intros d. cbn. rewrite Hs. cbn.
    apply (onmessage_cells JSON_parse d (session c)).
  - intros f. cbn.
    destruct (getDetections_ends f c)
      as [Hrun | (? & ? & ? & _ & _ & _ & _ & Hrun)];
      rewrite Hrun; reflexivity.
  - cbn. destruct (disconnect_ends c) as (c' & Hrun & _ & _ & _ & _ & _ & H & _).
    rewrite Hrun. exact H.
  - cbn. rewrite Hs. reflexivity.
  - cbn. rewrite Hs. reflexivity.
  - cbn. rewrite Hs. reflexivity.
  - cbn. rewrite Hs. cbn. rewrite ?Hs. cbn.
    cbv [onmessage try_log mbind Handler_bind try_eval].
    rewrite Hparse, Herr, Hfalsy, Himage. cbn.
    assert (Hdets : exists dets, get_prop data "detections" = Some dets).
    { destruct data; try discriminate Herr; eexists; reflexivity. }
    destruct Hdets as [dets ->]. repeat split; reflexivity.
Qed.

Lemma frame_after_stream_error_witness :
  let frame := "frame"%string in
  let c := snd (connectToCamera gateway_up "front-gate" initialComponent) in
  let c' := run (StreamSpec.parses_to frame
                   (JObj [("image", JStr "data:image/jpeg;base64,AAAA")]))
              [StreamError; Message frame] c in
  isConnected (session c) = true
  /\ isConnected (session c') = false
  /\ error (session c') = JNull
  /\ currentImage (session c') = JStr "data:image/jpeg;base64,AAAA".
Proof.
  cbv zeta. split; [reflexivity|].
  destruct (frame_after_stream_error
              (StreamSpec.parses_to "frame"
                 (JObj [("image", JStr "data:image/jpeg;base64,AAAA")]))
              (snd (connectToCamera gateway_up "front-gate" initialComponent))
              0%nat "frame"
              (JObj [("image", JStr "data:image/jpeg;base64,AAAA")])
              JUndefined (JStr "data:image/jpeg;base64,AAAA")
              eq_refl eq_refl eq_refl eq_refl eq_refl)
    as (_ & _ & _ & _ & _ & _ & Hc & He & Hi & _).
  repeat split; assumption.
Defined.

End PlayerProps.
